(** * MessageStoreNoSql: a shallow embedding of [src/src/message-store-nosql.ts]

    The store is a DynamoDB adapter.  Its methods are embedded as programs of
    a small state-and-exception monad over a [World] that holds the backend,
    the list of commands sent to it, and the heap of caller-owned message
    objects.  The DynamoDB client, the dag-cbor block codec, [JSON] and the
    repository's own [extractTagsAndSanitizeIndexes] are collaborators that
    the source only calls: they are the fields of an [Env]. *)

From stdpp Require Import gmap strings list fin_maps option sorting.

Open Scope string_scope.
Open Scope list_scope.
Open Scope nat_scope.
Open Scope stdpp_scope.

(** ** Data model *)

Definition bytes := list Byte.byte.

(** DynamoDB's [AttributeValue] union, restricted to the scalar members. *)
Inductive AttributeValue :=
| AttrS (s : string)
| AttrN (n : string)
| AttrB (b : bytes)
| AttrBOOL (b : bool)
| AttrNULL.

(** [av.S]: [undefined] unless the value is the [S] member. *)
Definition attrS (av : AttributeValue) : option string :=
  match av with AttrS s => Some s | _ => None end.

(** [av.B] *)
Definition attrB (av : AttributeValue) : option bytes :=
  match av with AttrB b => Some b | _ => None end.

(** [Record<string, AttributeValue>]: a stored item, and also a key. *)
Abbreviation Item := (gmap string AttributeValue).

(** [SortDirection] of dwn-sdk-js: [Descending = -1], [Ascending = 1]. *)
Inductive SortDirection := Descending | Ascending.

Definition SortDirection_eqb (a b : SortDirection) : bool :=
  match a, b with
  | Ascending, Ascending | Descending, Descending => true
  | _, _ => false
  end.

(** [MessageSort]: each dimension is an optional property. *)
Record MessageSort := {
  dateCreated : option SortDirection;
  datePublished : option SortDirection;
  messageTimestamp : option SortDirection
}.

Record SortProperties := {
  property : string;
  direction : SortDirection
}.

(** [extractSortProperties(messageSort?)]; [None] is an absent argument. *)
Definition extractSortProperties (messageSort : option MessageSort) : SortProperties :=
  match messageSort ≫= dateCreated with
  | Some d => {| property := "dateCreated"; direction := d |}
  | None =>
    match messageSort ≫= datePublished with
    | Some d => {| property := "datePublished"; direction := d |}
    | None =>
      match messageSort ≫= messageTimestamp with
      | Some d => {| property := "messageTimestamp"; direction := d |}
      | None => {| property := "messageTimestamp"; direction := Ascending |}
      end
    end
  end.

(** [FilterValue] of dwn-sdk-js: an equality value (string, number or
    boolean), a one-of list of those, or a range object. *)
Inductive EqualFilter :=
| FString (s : string)
| FNumber (n : Z)
| FBoolean (b : bool).

Inductive FilterValue :=
| FEqual (v : EqualFilter)
| FOneOf (vs : list EqualFilter)
| FRange (gt gte lt lte : option EqualFilter).

(** A [Filter] is an object; [for (const key in filter)] walks its
    properties in order. *)
Definition Filter := list (string * FilterValue).

(** [item[key].S !== expectedValue], with [item[key]] present.  Strict
    equality holds only between a string and the same string. *)
Definition strict_ne_S (s : option string) (expectedValue : FilterValue) : bool :=
  match s, expectedValue with
  | Some s, FEqual (FString e) => negb (String.eqb s e)
  | _, _ => true
  end.

(** ** Messages *)

(** A JSON-like value, for the properties the store never looks into. *)
#[warnings="-register-all"]
Inductive Val :=
| VStr (s : string)
| VNum (n : Z)
| VBool (b : bool)
| VNull
| VArr (vs : list Val)
| VObj (props : list (string * Val)).

Record Descriptor := {
  interface : string;
  method : string;
  descriptorProps : list (string * Val)
}.

(** [GenericMessage], seen as the store sees it: the descriptor, the
    optional [encodedData] property of a Records Write (read through the
    cast [as string|undefined]) and every other property. *)
Record GenericMessage := {
  descriptor : Descriptor;
  encodedData : option string;
  otherProps : gmap string Val
}.

Definition KeyValues := gmap string Val.

(** What [JSON.parse] returns: the object of attribute values that a key
    is, or any other JSON value ([null], a number, a string, an array, an
    object of another shape). *)
Inductive JSONValue :=
| JSONKey (key : Item)
| JSONOther (v : Val).

Record AbortSignal := { aborted : bool; reason : string }.
Record MessageStoreOptions := { signal : option AbortSignal }.

Record PaginationCursor := { messageCid : string; value : string }.

(** [Pagination]: both properties are optional; a limit is a number, here a
    natural number. *)
Record Pagination := { cursor : option PaginationCursor; limit : option nat }.

Record QueryResult := {
  messages : list GenericMessage;
  resultCursor : option PaginationCursor
}.

(** ** Backend commands *)

Record GetItemInput := {
  get_TableName : string;
  get_Key : Item;
  get_AttributesToGet : list string
}.

Record PutItemInput := { put_TableName : string; put_Item : Item }.

Record DeleteItemInput := { delete_TableName : string; delete_Key : Item }.

Record ScanCommandInput := {
  scan_TableName : string;
  scan_ExclusiveStartKey : option Item
}.

Record ScanCommandOutput := {
  scan_Items : option (list Item);
  scan_LastEvaluatedKey : option Item
}.

Record QueryCommandInput := {
  TableName : string;
  KeyConditionExpression : string;
  ExpressionAttributeNames : gmap string string;
  ExpressionAttributeValues : Item;
  ScanIndexForward : bool;
  IndexName : option string;
  Limit : option nat;
  (** declared as a key; [cursorInputSort] stores what [JSON.parse] gave *)
  ExclusiveStartKey : option JSONValue
}.

Record QueryCommandOutput := {
  Items : option (list Item);
  ScannedCount : option nat;
  LastEvaluatedKey : option Item
}.

Inductive Command : Type -> Type :=
| GetItemCommand (input : GetItemInput) : Command (option Item)
| PutItemCommand (input : PutItemInput) : Command unit
| DeleteItemCommand (input : DeleteItemInput) : Command unit
| ScanCommand (input : ScanCommandInput) : Command ScanCommandOutput
| QueryCommand (input : QueryCommandInput) : Command QueryCommandOutput.

(** A command as it appears in the log of physical I/O. *)
Inductive Sent :=
| sentCommand (R : Type) (c : Command R).
Arguments sentCommand {R} c.

(** ** Exceptions and results *)

Inductive Exn :=
| Aborted (reason : string)
| DecodeError
| TypeError
| SyntaxError
| BackendError (msg : string).

Inductive Result (A : Type) :=
| Ok (a : A)
| Throw (e : Exn).
Arguments Ok {A} a.
Arguments Throw {A} e.

(** ** Collaborators *)

Record Block := { cid : string; blockBytes : bytes }.

Record Env := {
  (** state of the DynamoDB service behind [this.#client] *)
  Backend : Type;
  (** [this.#client.send(command)]: resolves or rejects *)
  client_send : forall R, Command R -> Backend -> Result R * Backend;
  (** [block.encode({ value, codec: cbor, hasher: sha256 })] *)
  block_encode : GenericMessage -> Block;
  (** [block.decode({ bytes, codec: cbor, hasher: sha256 })]; [None] when
      the bytes do not decode *)
  block_decode : bytes -> option GenericMessage;
  (** [extractTagsAndSanitizeIndexes(indexes)], as [(indexes, tags)] *)
  extractTagsAndSanitizeIndexes : KeyValues -> Item * Item;
  JSON_stringify : Item -> string;
  (** [JSON.parse]; [None] when it throws *)
  JSON_parse : string -> option JSONValue
}.

(** ** The monad of store methods *)

(** A reference to a message object of the caller. *)
Definition Ref := nat.

(** What a method runs against: the service, the commands sent to it so
    far, and the caller's message objects. *)
Record World (E : Env) := {
  backend : Backend E;
  sent : list Sent;
  heap : gmap Ref GenericMessage
}.
Arguments backend {E} w.
Arguments sent {E} w.
Arguments heap {E} w.

Definition M (E : Env) (A : Type) : Type := World E -> Result A * World E.

Section Monad.
Context {E : Env}.

Definition ret {A} (a : A) : M E A := fun w => (Ok a, w).

Definition throw {A} (e : Exn) : M E A := fun w => (Throw e, w).

Definition bind {A B} (m : M E A) (k : A -> M E B) : M E B :=
  fun w =>
    match m w with
    | (Ok a, w') => k a w'
    | (Throw e, w') => (Throw e, w')
    end.

(** [try { body } catch (error) { handler }] *)
Definition try_catch {A} (body : M E A) (handler : Exn -> M E A) : M E A :=
  fun w =>
    match body w with
    | (Ok a, w') => (Ok a, w')
    | (Throw e, w') => handler e w'
    end.

(** [await this.#client.send(command)]: the command is logged, then
    answered by the backend. *)
Definition send {R} (c : Command R) : M E R :=
  fun w =>
    let (r, b) := client_send E R c (backend w) in
    (r, {| backend := b; sent := sent w ++ [sentCommand c]; heap := heap w |}).

(** Reading and writing a caller-owned message object. *)
Definition deref (l : Ref) : M E GenericMessage :=
  fun w =>
    match heap w !! l with
    | Some m => (Ok m, w)
    | None => (Throw TypeError, w)
    end.

Definition assign (l : Ref) (m : GenericMessage) : M E unit :=
  fun w => (Ok tt, {| backend := backend w; sent := sent w; heap := <[l := m]> (heap w) |}).
End Monad.

Declare Scope store_scope.
Delimit Scope store_scope with store.
Notation "x <- m ;; k" := (bind m (fun x => k))
  (at level 100, m at next level, right associativity) : store_scope.
Notation "m ;; k" := (bind m (fun _ => k))
  (at level 100, right associativity) : store_scope.
Open Scope store_scope.

Section Monad_lists.
Context {E : Env}.

(** Running a program on each element in turn: [for ... of] with [await],
    and [Promise.all] over promises settled in list order. *)
Fixpoint traverse {A B} (f : A -> M E B) (l : list A) : M E (list B) :=
  match l with
  | [] => ret []
  | a :: l' => b <- f a ;; bs <- traverse f l' ;; ret (b :: bs)
  end.

(** A loop that updates a local variable and may throw. *)
Fixpoint foldlM {A B} (f : B -> A -> M E B) (b : B) (l : list A) : M E B :=
  match l with
  | [] => ret b
  | a :: l' => b' <- f b a ;; foldlM f b' l'
  end.

(** [array.filter(callback)] with a callback that may throw: the elements
    are tested in order and the first exception ends the call. *)
Fixpoint filterM {A} (f : A -> M E bool) (l : list A) : M E (list A) :=
  match l with
  | [] => ret []
  | a :: l' =>
    keep <- f a ;;
    kept <- filterM f l' ;;
    ret (if keep : bool then a :: kept else kept)
  end.
End Monad_lists.

(** ** The store's methods *)

Section MessageStoreNoSql.
Context {E : Env}.

(** [#tableName] *)
Definition tableName : string := "messageStoreMessages".

(** [options?.signal?.throwIfAborted()] *)
Definition throwIfAborted (options : option MessageStoreOptions) : M E unit :=
  match options ≫= signal with
  | Some s => if aborted s then throw (Aborted (reason s)) else ret tt
  | None => ret tt
  end.

(** [marshall({ tenant, messageCid })] *)
Definition marshallKey (tenant cid : string) : Item :=
  {[ "tenant" := AttrS tenant; "messageCid" := AttrS cid ]}.

(** [getEncodedData], local to [put]: on a Records Write whose
    [encodedData] is truthy, the property is deleted from the message
    object itself and returned. *)
Definition getEncodedData (message : Ref) : M E (Ref * option string) :=
  m <- deref message ;;
  if String.eqb (interface (descriptor m)) "Records"
     && String.eqb (method (descriptor m)) "Write"
  then
    match encodedData m with
    | Some data =>
      if negb (String.eqb data "")
      then
        assign message {| descriptor := descriptor m;
                          encodedData := None;
                          otherProps := otherProps m |} ;;
        ret (message, Some data)
      else ret (message, None)
    | None => ret (message, None)
    end
  else ret (message, None).

Definition put (tenant : string) (message : Ref) (indexes : KeyValues)
    (options : option MessageStoreOptions) : M E unit :=
  throwIfAborted options ;;
  r <- getEncodedData message ;;
  let '(messageToProcess, encodedData) := r in
  value <- deref messageToProcess ;;
  let encodedMessageBlock := block_encode E value in
  let messageCid := cid encodedMessageBlock in
  let encodedMessageBytes := blockBytes encodedMessageBlock in
  let '(putIndexes, tags) := extractTagsAndSanitizeIndexes E indexes in
  let item : Item :=
    putIndexes ∪ (tags ∪
      {[ "tenant" := AttrS tenant;
         "messageCid" := AttrS messageCid;
         "encodedMessageBytes" := AttrB encodedMessageBytes ]}) in
  let item : Item :=
    match encodedData with
    | Some encodedData => <[ "encodedData" := AttrS encodedData ]> item
    | None => item
    end in
  try_catch
    (send (PutItemCommand {| put_TableName := tableName; put_Item := item |}))
    (fun error => ret tt).

Definition parseEncodedMessage (encodedMessageBytes : bytes)
    (encodedData : option string) (options : option MessageStoreOptions)
    : M E GenericMessage :=
  throwIfAborted options ;;
  match block_decode E encodedMessageBytes with
  | None => throw DecodeError
  | Some message =>
    match encodedData with
    | Some data =>
      ret {| descriptor := descriptor message;
             encodedData := Some data;
             otherProps := otherProps message |}
    | None => ret message
    end
  end.

(** [get]: the whole body sits in a [try] whose [catch] is empty, so a
    caught exception makes the method return [undefined]. *)
Definition get (tenant cid : string) (options : option MessageStoreOptions)
    : M E (option GenericMessage) :=
  try_catch
    (throwIfAborted options ;;
     response <- send (GetItemCommand
                   {| get_TableName := tableName;
                      get_Key := marshallKey tenant cid;
                      get_AttributesToGet :=
                        ["tenant"; "messageCid"; "encodedMessageBytes"; "encodedData"] |}) ;;
     match response with
     | None => ret None
     | Some item =>
       match item !! "tenant", item !! "messageCid", item !! "encodedMessageBytes" with
       | Some _, Some _, Some bytesAttr =>
         responseData <- parseEncodedMessage
                           (default [] (attrB bytesAttr))
                           (item !! "encodedData" ≫= attrS)
                           options ;;
         ret (Some responseData)
       | _, _, _ => throw TypeError
       end
     end)
    (fun error => ret None).

Definition delete (tenant cid : string) (options : option MessageStoreOptions)
    : M E unit :=
  throwIfAborted options ;;
  send (DeleteItemCommand
          {| delete_TableName := tableName; delete_Key := marshallKey tenant cid |}).

(** The body of the [do ... while] loop of [clear].  The scan command
    holds [scanParams] by reference, so it sees the start key written at
    the end of the previous round. *)
Definition clearItem (item : Item) : M E unit :=
  match item !! "tenant" ≫= attrS, item !! "messageCid" ≫= attrS with
  | Some tenant, Some cid =>
    send (DeleteItemCommand
            {| delete_TableName := tableName; delete_Key := marshallKey tenant cid |})
  | _, _ => throw TypeError
  end.

Fixpoint clearLoop (fuel : nat) (scanParams : ScanCommandInput) : M E bool :=
  match fuel with
  | 0 => ret false
  | S fuel =>
    scanResult <- send (ScanCommand scanParams) ;;
    match scan_Items scanResult with
    | None => throw TypeError
    | Some items =>
      traverse clearItem items ;;
      match scan_LastEvaluatedKey scanResult with
      | Some key =>
        clearLoop fuel {| scan_TableName := scan_TableName scanParams;
                          scan_ExclusiveStartKey := Some key |}
      | None => ret true
      end
    end
  end.

(** [clear()] takes no options.  The result tells whether the loop ended
    within [fuel] rounds; an exception is caught and only logged. *)
Definition clear (fuel : nat) : M E bool :=
  try_catch
    (clearLoop fuel {| scan_TableName := tableName; scan_ExclusiveStartKey := None |})
    (fun err => ret true).
End MessageStoreNoSql.

Section Query.
Context {E : Env}.

Definition set_IndexName (v : option string) (p : QueryCommandInput) :=
  {| TableName := TableName p;
     KeyConditionExpression := KeyConditionExpression p;
     ExpressionAttributeNames := ExpressionAttributeNames p;
     ExpressionAttributeValues := ExpressionAttributeValues p;
     ScanIndexForward := ScanIndexForward p;
     IndexName := v;
     Limit := Limit p;
     ExclusiveStartKey := ExclusiveStartKey p |}.

Definition set_ScanIndexForward (v : bool) (p : QueryCommandInput) :=
  {| TableName := TableName p;
     KeyConditionExpression := KeyConditionExpression p;
     ExpressionAttributeNames := ExpressionAttributeNames p;
     ExpressionAttributeValues := ExpressionAttributeValues p;
     ScanIndexForward := v;
     IndexName := IndexName p;
     Limit := Limit p;
     ExclusiveStartKey := ExclusiveStartKey p |}.

Definition set_Limit (v : option nat) (p : QueryCommandInput) :=
  {| TableName := TableName p;
     KeyConditionExpression := KeyConditionExpression p;
     ExpressionAttributeNames := ExpressionAttributeNames p;
     ExpressionAttributeValues := ExpressionAttributeValues p;
     ScanIndexForward := ScanIndexForward p;
     IndexName := IndexName p;
     Limit := v;
     ExclusiveStartKey := ExclusiveStartKey p |}.

Definition set_ExclusiveStartKey (v : option JSONValue) (p : QueryCommandInput) :=
  {| TableName := TableName p;
     KeyConditionExpression := KeyConditionExpression p;
     ExpressionAttributeNames := ExpressionAttributeNames p;
     ExpressionAttributeValues := ExpressionAttributeValues p;
     ScanIndexForward := ScanIndexForward p;
     IndexName := IndexName p;
     Limit := Limit p;
     ExclusiveStartKey := v |}.

(** [delete data["LastEvaluatedKey"]] *)
Definition delete_LastEvaluatedKey (data : QueryCommandOutput) :=
  {| Items := Items data; ScannedCount := ScannedCount data; LastEvaluatedKey := None |}.

(** [cursorInputSort]: the parameters of the physical query.  A limit is
    a number, so [pagination?.limit] is truthy when it is present and not
    zero; a cursor is an object, truthy when present. *)
Definition cursorInputSort (tenant : string) (pagination : option Pagination)
    (sortAttribute : string) (sortDirection : SortDirection)
    : M E QueryCommandInput :=
  let direction := SortDirection_eqb sortDirection Ascending in
  let params :=
    {| TableName := tableName;
       KeyConditionExpression := "#tenant = :tenant";
       ExpressionAttributeNames := {[ "#tenant" := "tenant" ]};
       ExpressionAttributeValues := {[ ":tenant" := AttrS tenant ]};
       ScanIndexForward := direction;
       IndexName := None;
       Limit := None;
       ExclusiveStartKey := None |} in
  let params :=
    if negb (String.eqb sortAttribute "")
    then
      let params := set_IndexName (Some sortAttribute) params in
      if direction then set_ScanIndexForward direction params else params
    else params in
  let params :=
    match pagination ≫= limit with
    | Some (S n) => set_Limit (Some (S n)) params
    | _ => params
    end in
  match pagination ≫= cursor with
  | Some c =>
    match JSON_parse E (messageCid c) with
    | Some key => ret (set_ExclusiveStartKey (Some key) params)
    | None => throw SyntaxError
    end
  | None => ret params
  end.

(** [data.LastEvaluatedKey[key] !== data.Items[...].S]: the left operand is
    an attribute value object held by the key, the right one is the
    property named [S] of an item, that is [undefined] or another
    attribute value object of the response.  [!==] on objects compares
    identity, and the two are never the same object. *)
Definition strict_ne_object (a : AttributeValue) (b : option AttributeValue) : bool :=
  true.

(** The block of [query] that looks at [data.LastEvaluatedKey]. *)
Definition lastEvaluatedKeyCheck (data : QueryCommandOutput) : M E QueryCommandOutput :=
  match ScannedCount data, Items data, LastEvaluatedKey data with
  | Some (S n), Some items, Some lastEvaluatedKey =>
    matches <- foldlM
      (fun matches '(key, av) =>
         match items !! n with
         | None => throw TypeError
         | Some lastItem =>
           if strict_ne_object av (lastItem !! "S") then ret false else ret matches
         end)
      true (map_to_list lastEvaluatedKey) ;;
    if (matches : bool) then ret (delete_LastEvaluatedKey data) else ret data
  | _, _, _ => ret data
  end.

(** [item.hasOwnProperty(key)].  The method is looked up on the item
    itself, so an attribute named [hasOwnProperty] is found in its place;
    its value is an attribute value object, and calling it is a type
    error. *)
Definition hasOwnProperty (item : Item) (key : string) : M E bool :=
  match item !! "hasOwnProperty" with
  | Some _ => throw TypeError
  | None => ret (bool_decide (is_Some (item !! key)))
  end.

(** The inner [for ... in] loop of the [filteredItems] callback:
    [innerFilterMatch] starts [true] and is cleared by every property that
    the item lacks or holds with another value. *)
Definition innerFilterMatch (item : Item) (filter : Filter) : M E bool :=
  foldlM
    (fun innerFilterMatch '(key, expectedValue) =>
       has <- hasOwnProperty item key ;;
       if negb has || strict_ne_S (item !! key ≫= attrS) expectedValue
       then ret false
       else ret innerFilterMatch)
    true filter.

(** The outer loop counts the filters that matched. *)
Definition filterMatchCount (item : Item) (filters : list Filter) : M E nat :=
  foldlM
    (fun filterMatchCount filter =>
       innerFilterMatch <- innerFilterMatch item filter ;;
       ret (if innerFilterMatch : bool then S filterMatchCount else filterMatchCount))
    0 filters.

(** The callback of [data.Items.filter]: [filterMatchCount > 0]. *)
Definition filterPredicate (filters : list Filter) (item : Item) : M E bool :=
  filterMatchCount <- filterMatchCount item filters ;;
  ret (0 <? filterMatchCount).

Definition filteredItems (filters : list Filter) (items : list Item) : M E (list Item) :=
  filterM (filterPredicate filters) items.

(** The arguments of one [parseEncodedMessage] call of the [results.map]
    callback: [new Uint8Array(r.encodedMessageBytes.B)] and
    [r.encodedData?.S]. *)
Definition parseArguments (r : Item) : M E (bytes * option string) :=
  match r !! "encodedMessageBytes" with
  | None => throw TypeError
  | Some av => ret (default [] (attrB av), r !! "encodedData" ≫= attrS)
  end.

(** [processPaginationResults]: [limit] and [sortProperty] are accepted
    and not used.  The promises of [Promise.all] are settled in list
    order. *)
Definition processPaginationResults (results : list Item) (sortProperty : string)
    (lastEvaluatedKey : option Item) (limit : option nat)
    (options : option MessageStoreOptions) : M E QueryResult :=
  let cursor :=
    match lastEvaluatedKey with
    | Some key => Some {| messageCid := JSON_stringify E key;
                          value := JSON_stringify E key |}
    | None => None
    end in
  args <- traverse parseArguments results ;;
  messages <- traverse (fun '(b, d) => parseEncodedMessage b d options) args ;;
  ret {| messages := messages; resultCursor := cursor |}.

Definition query (tenant : string) (filters : list Filter)
    (messageSort : option MessageSort) (pagination : option Pagination)
    (options : option MessageStoreOptions) : M E QueryResult :=
  throwIfAborted options ;;
  try_catch
    (let sp := extractSortProperties messageSort in
     let sortProperty := property sp in
     let sortDirection := direction sp in
     params <- cursorInputSort tenant pagination sortProperty sortDirection ;;
     data <- send (QueryCommand params) ;;
     let params := set_Limit None params in
     data2 <- send (QueryCommand params) ;;
     data <- lastEvaluatedKeyCheck data ;;
     match Items data with
     | Some items =>
       filteredItems <- filteredItems filters items ;;
       processPaginationResults filteredItems sortProperty
         (LastEvaluatedKey data) (pagination ≫= limit) options
     | None => ret {| messages := []; resultCursor := None |}
     end)
    (fun err => throw err).
End Query.

(** ** A reference model of the backing service

    The table lives outside the repository.  This model follows the
    documented behaviour of the service for the five commands the store
    sends: items are keyed by [(tenant, messageCid)]; a query reads one
    tenant's partition of an index in the index's order, resumes after the
    position of [ExclusiveStartKey], and ends a response after [Limit]
    items or when the response is full (the service reads at most 1 MB of
    data for one response), whichever comes first; it reports the key of
    the last item it read in [LastEvaluatedKey] when it stopped at the
    limit or before the end of the partition.  A scan is answered with the
    whole table in one response. *)

Module DynamoDB.

#[global] Instance byte_eq_dec : EqDecision Byte.byte := Byte.byte_eq_dec.

#[global] Instance AttributeValue_eq_dec : EqDecision AttributeValue.
Proof. solve_decision. Defined.

Record Service := {
  rows : list Item;
  (** a service that is not available rejects writes *)
  available : bool;
  (** how many of the items ahead fill one response of a query *)
  capacity : list Item -> nat
}.

Definition primaryKey (item : Item) : option AttributeValue * option AttributeValue :=
  (item !! "tenant", item !! "messageCid").

Definition hasKey (key : Item) (item : Item) : bool :=
  bool_decide (primaryKey item = primaryKey key).

(** The sort attribute of an index; the base table sorts by [messageCid]. *)
Definition sortAttribute (indexName : option string) : string :=
  default "messageCid" indexName.

Definition sortValue (indexName : option string) (item : Item) : option string :=
  item !! sortAttribute indexName ≫= attrS.

(** An item belongs to a tenant's partition of an index when it carries
    the tenant and a string under the index's sort attribute. *)
Definition inIndex (tenant : option AttributeValue) (indexName : option string)
    (item : Item) : bool :=
  bool_decide (item !! "tenant" = tenant) && bool_decide (is_Some (sortValue indexName item)).

(** Index order: by sort value, then by [messageCid]. *)
Definition indexLeb (indexName : option string) (a b : Item) : bool :=
  match String.compare (default "" (sortValue indexName a))
                       (default "" (sortValue indexName b)) with
  | Lt => true
  | Gt => false
  | Eq => String.leb (default "" (a !! "messageCid" ≫= attrS))
                     (default "" (b !! "messageCid" ≫= attrS))
  end.

Definition indexLe (indexName : option string) (a b : Item) : Prop :=
  indexLeb indexName a b = true.

#[global] Instance indexLe_dec indexName a b : Decision (indexLe indexName a b).
Proof. unfold indexLe. apply _. Defined.

(** What a query without start key and limit reads. *)
Definition indexView (rows : list Item) (p : QueryCommandInput) : list Item :=
  let members :=
    List.filter (inIndex (ExpressionAttributeValues p !! ":tenant") (IndexName p)) rows in
  let ascending := merge_sort (indexLe (IndexName p)) members in
  if ScanIndexForward p then ascending else reverse ascending.

(** The key of an item in an index: table key and sort attribute. *)
Definition keyOf (indexName : option string) (item : Item) : Item :=
  filter (fun kv => kv.1 ∈ ["tenant"; "messageCid"; sortAttribute indexName]) item.

(** [isAfter indexName forward key item]: the item's position in the
    index comes after the position of [key], in the direction of the scan. *)
Definition isAfter (indexName : option string) (forward : bool) (key item : Item)
    : bool :=
  if forward then negb (indexLeb indexName item key)
  else negb (indexLeb indexName key item).

(** The items after the position of [key], whether or not an item is
    stored at that position. *)
Definition afterKey (indexName : option string) (forward : bool) (key : Item)
    (view : list Item) : list Item :=
  List.filter (isAfter indexName forward key) view.

(** A start key is accepted when it is a key of the index, in the
    partition that the query reads: the tenant of the query, a
    [messageCid] and the sort attribute, all strings, and nothing else. *)
Definition validKey (p : QueryCommandInput) (key : Item) : bool :=
  inIndex (ExpressionAttributeValues p !! ":tenant") (IndexName p) key
  && bool_decide (is_Some (key !! "messageCid" ≫= attrS))
  && bool_decide (keyOf (IndexName p) key = key).

(** Where a query starts.  A start key that is no object of attribute
    values gives the request no position, and the query starts at the
    beginning. *)
Definition startOf (p : QueryCommandInput) (view : list Item) : Result (list Item) :=
  match ExclusiveStartKey p with
  | Some (JSONKey key) =>
    if validKey p key
    then Ok (afterKey (IndexName p) (ScanIndexForward p) key view)
    else Throw (BackendError "ValidationException")
  | Some (JSONOther _) | None => Ok view
  end.

(** What one response reads of the items ahead: what fills a response,
    at least one item, and no more than [Limit]. *)
Definition responseOf (s : Service) (limit : option nat) (ahead : list Item)
    : list Item :=
  let full := take (Nat.max 1 (capacity s ahead)) ahead in
  match limit with
  | Some n => take n full
  | None => full
  end.

Definition runQuery (s : Service) (p : QueryCommandInput)
    : Result QueryCommandOutput :=
  if decide (Limit p = Some 0) then Throw (BackendError "ValidationException")
  else
    match startOf p (indexView (rows s) p) with
    | Throw e => Throw e
    | Ok ahead =>
      let page := responseOf s (Limit p) ahead in
      Ok {| Items := Some page;
            ScannedCount := Some (length page);
            LastEvaluatedKey :=
              if decide (Limit p = Some (length page) \/ length page < length ahead)
              then keyOf (IndexName p) <$> last page
              else None |}
    end.

Definition project (attributes : list string) (item : Item) : Item :=
  filter (fun kv => kv.1 ∈ attributes) item.

Definition run {R} (c : Command R) (s : Service) : Result R * Service :=
  match c in Command R return Result R * Service with
  | GetItemCommand input =>
    (Ok (project (get_AttributesToGet input)
           <$> List.find (hasKey (get_Key input)) (rows s)), s)
  | PutItemCommand input =>
    if available s
    then (Ok tt,
          {| rows := List.filter (fun i => negb (hasKey (put_Item input) i)) (rows s)
                       ++ [put_Item input];
             available := true;
             capacity := capacity s |})
    else (Throw (BackendError "ServiceUnavailable"), s)
  | DeleteItemCommand input =>
    if available s
    then (Ok tt,
          {| rows := List.filter (fun i => negb (hasKey (delete_Key input) i)) (rows s);
             available := true;
             capacity := capacity s |})
    else (Throw (BackendError "ServiceUnavailable"), s)
  | ScanCommand input =>
    (Ok {| scan_Items := Some (rows s); scan_LastEvaluatedKey := None |}, s)
  | QueryCommand input => (runQuery s input, s)
  end.

End DynamoDB.

(** ** Vocabulary of the properties *)

(** The store over the reference service, with the other collaborators of [E]. *)
Definition withDynamoDB (E : Env) : Env :=
  {| Backend := DynamoDB.Service;
     client_send := @DynamoDB.run;
     block_encode := block_encode E;
     block_decode := block_decode E;
     extractTagsAndSanitizeIndexes := extractTagsAndSanitizeIndexes E;
     JSON_stringify := JSON_stringify E;
     JSON_parse := JSON_parse E |}.

(** A pair of a filter matches an item when the item holds the same string
    under the pair's attribute. *)
Definition pairMatches (item : Item) (kv : string * FilterValue) : Prop :=
  exists s, item !! kv.1 ≫= attrS = Some s /\ kv.2 = FEqual (FString s).

(** A clause matches when all of its pairs do. *)
Definition clauseMatches (item : Item) (clause : Filter) : Prop :=
  Forall (pairMatches item) clause.

#[global] Instance pairMatches_dec item kv : Decision (pairMatches item kv).
Proof.
  unfold pairMatches.
  destruct (item !! kv.1 ≫= attrS) as [s|]; [| right; by intros (? & [=] & _)].
  destruct kv.2 as [[e| |]| |];
    try (right; intros (? & _ & [=]); done).
  destruct (decide (s = e)) as [->|Hne].
  - left. by exists e.
  - right. intros (? & [= <-] & [= <-]). done.
Defined.

#[global] Instance clauseMatches_dec item clause : Decision (clauseMatches item clause).
Proof. unfold clauseMatches. apply _. Defined.

(** The items that match at least one clause, in their order. *)
Definition matching (filters : list Filter) (items : list Item) : list Item :=
  filter (fun item => Exists (clauseMatches item) filters) items.

(** When the filter step throws: some item has an attribute named
    [hasOwnProperty] and some clause has a pair to test on it. *)
Definition filterFails (filters : list Filter) (items : list Item) : Prop :=
  Exists (fun item : Item => is_Some (item !! "hasOwnProperty")) items
  /\ Exists (fun clause : Filter => clause ≠ []) filters.

#[global] Instance filterFails_dec filters items : Decision (filterFails filters items).
Proof. unfold filterFails. apply _. Defined.

(** The message a stored item decodes to when the signal is not aborted:
    the pure content of [parseArguments] and [parseEncodedMessage]. *)
Definition decodeItem (E : Env) (r : Item) : option GenericMessage :=
  av ← r !! "encodedMessageBytes";
  message ← block_decode E (default [] (attrB av));
  Some match r !! "encodedData" ≫= attrS with
       | Some data => {| descriptor := descriptor message;
                         encodedData := Some data;
                         otherProps := otherProps message |}
       | None => message
       end.

Definition isAborted (options : option MessageStoreOptions) : bool :=
  match options ≫= signal with
  | Some s => aborted s
  | None => false
  end.

Definition isRecordsWrite (m : GenericMessage) : bool :=
  String.eqb (interface (descriptor m)) "Records"
  && String.eqb (method (descriptor m)) "Write".

(** The message object once [encodedData] has been deleted from it. *)
Definition withoutEncodedData (m : GenericMessage) : GenericMessage :=
  {| descriptor := descriptor m; encodedData := None; otherProps := otherProps m |}.

(** What [getEncodedData] leaves of a message object: the inline data goes
    when the message is a Records Write and the data is a non-empty string. *)
Definition afterGetEncodedData (m : GenericMessage) : GenericMessage :=
  match encodedData m with
  | Some data =>
    if isRecordsWrite m && negb (String.eqb data "") then withoutEncodedData m else m
  | None => m
  end.

(** The cursor [processPaginationResults] builds from a key. *)
Definition cursorOf (E : Env) (key : Item) : PaginationCursor :=
  {| messageCid := JSON_stringify E key; value := JSON_stringify E key |}.

(** [decodes E r m]: the stored item [r] decodes to the message [m]. *)
Definition decodes (E : Env) (r : Item) (m : GenericMessage) : Prop :=
  decodeItem E r = Some m.

(** The parameters [cursorInputSort] builds for a sort request, before the
    start key is set. *)
Definition sortedParams (tenant : string) (messageSort : option MessageSort)
    (limit : option nat) : QueryCommandInput :=
  {| TableName := tableName;
     KeyConditionExpression := "#tenant = :tenant";
     ExpressionAttributeNames := {[ "#tenant" := "tenant" ]};
     ExpressionAttributeValues := {[ ":tenant" := AttrS tenant ]};
     ScanIndexForward :=
       SortDirection_eqb (direction (extractSortProperties messageSort)) Ascending;
     IndexName := Some (property (extractSortProperties messageSort));
     Limit := limit;
     ExclusiveStartKey := None |}.

(** The limit the physical query carries: a present, non-zero one. *)
Definition physicalLimit (pagination : option Pagination) : option nat :=
  match pagination ≫= limit with
  | Some (S n) => Some (S n)
  | _ => None
  end.

(** The index a sort request reads and what a tenant's query sees in it,
    in scan order. *)
Definition sortIndex (messageSort : option MessageSort) : option string :=
  Some (property (extractSortProperties messageSort)).

Definition tenantView (rows : list Item) (tenant : string)
    (messageSort : option MessageSort) : list Item :=
  DynamoDB.indexView rows (sortedParams tenant messageSort None).

(** Scan order of a sort request: index order, or its converse. *)
Definition scanOrder (messageSort : option MessageSort) (a b : Item) : Prop :=
  if SortDirection_eqb (direction (extractSortProperties messageSort)) Ascending
  then DynamoDB.indexLe (sortIndex messageSort) a b
  else DynamoDB.indexLe (sortIndex messageSort) b a.


(** A program that only appends to the log of sent commands. *)
Definition appends (E : Env) {A} (m : M E A) : Prop :=
  forall w, exists l, sent (m w).2 = sent w ++ l.

(** Where a cursor stands in a view of an index: before everything, or just
    after the item whose key it carries. *)
Definition standsAfter (E : Env) (index : option string)
    (c : option PaginationCursor) (before : list Item) : Prop :=
  match c with
  | None => before = []
  | Some cur =>
    exists before' x,
      before = before' ++ [x] /\ cur = cursorOf E (DynamoDB.keyOf index x)
  end.

Ltac run_monad := unfold bind, ret, throw, try_catch; simpl.

(** A caller that pages through a query: it calls [query] with limit [L]
    and feeds each returned cursor into the next call, until a page comes
    without cursor.  The result is the list of pages; [None] when a call
    throws or [fuel] calls were not enough. *)
Fixpoint paginate {E : Env} (fuel : nat) (tenant : string) (filters : list Filter)
    (messageSort : option MessageSort) (L : nat) (c : option PaginationCursor)
    (options : option MessageStoreOptions) (w : World E)
    : option (list (list GenericMessage)) :=
  match fuel with
  | 0 => None
  | S fuel =>
    match query tenant filters messageSort (Some {| cursor := c; limit := Some L |}) options w with
    | (Ok r, w') =>
      match resultCursor r with
      | None => Some [messages r]
      | Some c' =>
        cons (messages r) <$> paginate fuel tenant filters messageSort L (Some c') options w'
      end
    | (Throw _, _) => None
    end
  end.

(** The five operations of the store, for statements that range over them. *)
Inductive Operation :=
| OpPut (tenant : string) (message : Ref) (indexes : KeyValues)
| OpGet (tenant cid : string)
| OpQuery (tenant : string) (filters : list Filter) (messageSort : option MessageSort)
    (pagination : option Pagination)
| OpDelete (tenant cid : string)
| OpClear (fuel : nat).

(** Running an operation for its outcome: the exception it throws, if any,
    and the world it leaves.  [clear] has no options parameter. *)
Definition outcome {E : Env} (op : Operation) (options : option MessageStoreOptions)
    (w : World E) : option Exn * World E :=
  let thrown {A} (r : Result A * World E) : option Exn * World E :=
    match r with
    | (Ok _, w') => (None, w')
    | (Throw e, w') => (Some e, w')
    end in
  match op with
  | OpPut tenant message indexes => thrown (put tenant message indexes options w)
  | OpGet tenant cid => thrown (get tenant cid options w)
  | OpQuery tenant filters messageSort pagination =>
    thrown (query tenant filters messageSort pagination options w)
  | OpDelete tenant cid => thrown (delete tenant cid options w)
  | OpClear fuel => thrown (clear fuel w)
  end.

(** ** A small concrete store, for evaluation *)

Module Sample.

Definition recordsWrite (recordId : string) (data : option string) : GenericMessage :=
  {| descriptor := {| interface := "Records"; method := "Write"; descriptorProps := [] |};
     encodedData := data;
     otherProps := {[ "recordId" := VStr recordId ]} |}.

Definition m1 := recordsWrite "r1" None.
Definition m2 := recordsWrite "r2" None.
Definition m3 := recordsWrite "r3" None.

(** A stored item of tenant ["T"]. *)
Definition stored (cid timestamp schema : string) (b : bytes) : Item :=
  {[ "tenant" := AttrS "T";
     "messageCid" := AttrS cid;
     "messageTimestamp" := AttrS timestamp;
     "schema" := AttrS schema;
     "encodedMessageBytes" := AttrB b ]}.

Definition r1 := stored "c1" "t1" "note" [Byte.x01].
Definition r2 := stored "c2" "t2" "task" [Byte.x02].
Definition r3 := stored "c3" "t3" "task" [Byte.x03].
(** an item whose bytes do not decode *)
Definition r4 := stored "c4" "t4" "task" [Byte.xff].

(** A one-byte stand-in for the block codec. *)
Definition decode (b : bytes) : option GenericMessage :=
  match b with
  | [Byte.x01] => Some m1
  | [Byte.x02] => Some m2
  | [Byte.x03] => Some m3
  | _ => None
  end.

Definition encode (m : GenericMessage) : Block :=
  {| cid := "c1"; blockBytes := [Byte.x01] |}.

(** [JSON.stringify] of a key is stood for by the key's [messageCid];
    [JSON.parse] looks the key up again, and knows [null]. *)
Definition stringify (key : Item) : string :=
  default "" (key !! "messageCid" ≫= attrS).

Definition parse (s : string) : option JSONValue :=
  if String.eqb s "null" then Some (JSONOther VNull)
  else
    JSONKey ∘ DynamoDB.keyOf (Some "messageTimestamp")
      <$> List.find (fun r => bool_decide (r !! "messageCid" = Some (AttrS s)))
            [r1; r2; r3; r4].

Definition env : Env :=
  {| Backend := DynamoDB.Service;
     client_send := @DynamoDB.run;
     block_encode := encode;
     block_decode := decode;
     extractTagsAndSanitizeIndexes := fun _ => (∅, ∅);
     JSON_stringify := stringify;
     JSON_parse := parse |}.

Definition world (rows : list Item) (up : bool) (h : gmap Ref GenericMessage)
    : World env :=
  Build_World env
    {| DynamoDB.rows := rows; DynamoDB.available := up; DynamoDB.capacity := length |}
    [] h.

Definition byTimestamp : option MessageSort :=
  Some {| dateCreated := None; datePublished := None;
          messageTimestamp := Some Ascending |}.


(** The same store behind a service whose responses are full after [k]
    items. *)
Definition crowded (k : nat) (rows : list Item) : World env :=
  Build_World env
    {| DynamoDB.rows := rows; DynamoDB.available := true;
       DynamoDB.capacity := fun _ => k |}
    [] ∅.

Definition tasks : list Filter := [[("schema", FEqual (FString "task"))]].

Definition anything : list Filter := [[]].

Definition page (L : nat) : option Pagination :=
  Some {| cursor := None; limit := Some L |}.

Definition aborting : option MessageStoreOptions :=
  Some {| signal := Some {| aborted := true; reason := "AbortError" |} |}.

End Sample.

(** ** Provisioning: [open]

    [open] talks to the same client with two commands of its own.  They
    are kept apart from the data commands above: a [Provisioner] answers
    them, and a [Provisioning] is the state of the service with the list of
    provisioning commands sent so far. *)

Record KeySchemaElement := { AttributeName : string; KeyType : string }.

Record AttributeDefinition := {
  definedAttributeName : string;
  AttributeType : string
}.

Record GlobalSecondaryIndex := {
  gsi_IndexName : string;
  gsi_KeySchema : list KeySchemaElement;
  ProjectionType : string
}.

Record CreateTableInput := {
  create_AttributeDefinitions : list AttributeDefinition;
  create_TableName : string;
  create_KeySchema : list KeySchemaElement;
  create_GlobalSecondaryIndexes : list GlobalSecondaryIndex;
  BillingMode : string;
  TableClass : string
}.

Record ListTablesInput := { list_Limit : nat }.

Record ListTablesOutput := { TableNames : option (list string) }.

Inductive TableCommand : Type -> Type :=
| ListTablesCommand (input : ListTablesInput) : TableCommand ListTablesOutput
| CreateTableCommand (input : CreateTableInput) : TableCommand unit.

Inductive SentTable :=
| sentTableCommand (R : Type) (c : TableCommand R).
Arguments sentTableCommand {R} c.

Record Provisioner := {
  Tables : Type;
  tables_send : forall R, TableCommand R -> Tables -> Result R * Tables
}.

Record Provisioning (P : Provisioner) := {
  tables : Tables P;
  tablesSent : list SentTable
}.
Arguments tables {P} p.
Arguments tablesSent {P} p.

(** [await this.#client.send(command)] for a provisioning command. *)
Definition sendTable {P : Provisioner} {R} (c : TableCommand R) (w : Provisioning P)
    : Result R * Provisioning P :=
  let (r, t) := tables_send P R c (tables w) in
  (r, {| tables := t; tablesSent := tablesSent w ++ [sentTableCommand c] |}).

(** A GSI of [open]: partitioned by tenant, sorted by the attribute that
    names it, projecting everything. *)
Definition tenantIndex (name : string) : GlobalSecondaryIndex :=
  {| gsi_IndexName := name;
     gsi_KeySchema := [ {| AttributeName := "tenant"; KeyType := "HASH" |};
                        {| AttributeName := name; KeyType := "RANGE" |} ];
     ProjectionType := "ALL" |}.

(** [createTableInput] of [MessageStoreNoSql.open]. *)
Definition createTableInput : CreateTableInput :=
  {| create_AttributeDefinitions :=
       [ {| definedAttributeName := "tenant"; AttributeType := "S" |};
         {| definedAttributeName := "messageCid"; AttributeType := "S" |};
         {| definedAttributeName := "dateCreated"; AttributeType := "S" |};
         {| definedAttributeName := "datePublished"; AttributeType := "S" |};
         {| definedAttributeName := "messageTimestamp"; AttributeType := "S" |} ];
     create_TableName := tableName;
     create_KeySchema :=
       [ {| AttributeName := "tenant"; KeyType := "HASH" |};
         {| AttributeName := "messageCid"; KeyType := "RANGE" |} ];
     create_GlobalSecondaryIndexes :=
       [ tenantIndex "dateCreated";
         tenantIndex "datePublished";
         tenantIndex "messageTimestamp" ];
     BillingMode := "PAY_PER_REQUEST";
     TableClass := "STANDARD" |}.

(** [TableNames.length > 0 && TableNames.indexOf(name) !== -1] *)
Definition tableListed (name : string) (names : list string) : bool :=
  (0 <? length names) && existsb (String.eqb name) names.

(** [MessageStoreNoSql.open]: one table name is listed; when the answer
    carries names and the store's table is not among them, the table is
    created, and a failure of the creation is caught and logged. *)
Definition open {P : Provisioner} (w : Provisioning P)
    : Result unit * Provisioning P :=
  match sendTable (ListTablesCommand {| list_Limit := 1 |}) w with
  | (Throw e, w1) => (Throw e, w1)
  | (Ok response, w1) =>
    match TableNames response with
    | Some names =>
      if tableListed tableName names then (Ok tt, w1)
      else
        let (_, w2) := sendTable (CreateTableCommand createTableInput) w1 in
        (Ok tt, w2)
    | None => (Ok tt, w1)
    end
  end.

(** A reference model of the two provisioning commands: the service holds
    table names in the order in which it lists them; creating a table that
    exists is rejected. *)
Module TableService.

Definition run {R} (c : TableCommand R) (names : list string)
    : Result R * list string :=
  match c in TableCommand R return Result R * list string with
  | ListTablesCommand input =>
    match list_Limit input with
    | 0 => (Throw (BackendError "ValidationException"), names)
    | n => (Ok {| TableNames := Some (take n names) |}, names)
    end
  | CreateTableCommand input =>
    if existsb (String.eqb (create_TableName input)) names
    then (Throw (BackendError "ResourceInUseException"), names)
    else (Ok tt, names ++ [create_TableName input])
  end.

Definition provisioner : Provisioner :=
  {| Tables := list string; tables_send := @run |}.

Definition start (names : list string) : Provisioning provisioner :=
  Build_Provisioning provisioner names [].

End TableService.

(** ** The companion store: [DataStoreNoSql] *)

(** A [Readable], taken for the bytes it yields. *)
Definition Readable := bytes.

Record DataStoreGetResult := { get_dataSize : nat; dataStream : Readable }.

Record DataStorePutResult := { put_dataSize : nat }.

Module DataStoreNoSql.

Definition tableName : string := "dataStore".

(** [recordId + "|" + dataCid], the sort key of the table. *)
Definition recordIdDataCid (recordId dataCid : string) : string :=
  String.append (String.append recordId "|") dataCid.

Definition dataKey (tenant recordId dataCid : string) : Item :=
  {[ "tenant" := AttrS tenant;
     "recordIdDataCid" := AttrS (recordIdDataCid recordId dataCid) ]}.

(** [createTableInput] of [DataStoreNoSql.open]. *)
Definition createTableInput : CreateTableInput :=
  {| create_AttributeDefinitions :=
       [ {| definedAttributeName := "tenant"; AttributeType := "S" |};
         {| definedAttributeName := "recordIdDataCid"; AttributeType := "S" |} ];
     create_TableName := tableName;
     create_KeySchema :=
       [ {| AttributeName := "tenant"; KeyType := "HASH" |};
         {| AttributeName := "recordIdDataCid"; KeyType := "RANGE" |} ];
     create_GlobalSecondaryIndexes := [];
     BillingMode := "PAY_PER_REQUEST";
     TableClass := "STANDARD" |}.

(** [DataStoreNoSql.open]: it returns early only when the listed names
    hold the table; in every other case, an answer without names included,
    it goes on to create the table. *)
Definition open {P : Provisioner} (w : Provisioning P)
    : Result unit * Provisioning P :=
  match sendTable (ListTablesCommand {| list_Limit := 1 |}) w with
  | (Throw e, w1) => (Throw e, w1)
  | (Ok response, w1) =>
    if match TableNames response with
       | Some names => tableListed tableName names
       | None => false
       end
    then (Ok tt, w1)
    else
      let (_, w2) := sendTable (CreateTableCommand createTableInput) w1 in
      (Ok tt, w2)
  end.

Section Methods.
Context {E : Env}.

Definition get (tenant recordId dataCid : string) : M E (option DataStoreGetResult) :=
  response <- send (GetItemCommand
                {| get_TableName := tableName;
                   get_Key := dataKey tenant recordId dataCid;
                   get_AttributesToGet := ["tenant"; "recordId"; "dataCid"; "data"] |}) ;;
  match response with
  | None => ret None
  | Some item =>
    match item !! "recordId", item !! "tenant", item !! "dataCid", item !! "data" with
    | Some _, Some _, Some _, Some dataAttr =>
      let data := attrB dataAttr in
      ret (Some {| get_dataSize := match data with
                                   | Some b => length b
                                   | None => 0
                                   end;
                   dataStream := default [] data |})
    | _, _, _, _ => throw TypeError
    end
  end.

(** [put]: the stream is read to its end, then written as one item. *)
Definition put (tenant recordId dataCid : string) (dataStream : Readable)
    : M E DataStorePutResult :=
  let bytes := dataStream in
  send (PutItemCommand
          {| put_TableName := tableName;
             put_Item :=
               {[ "tenant" := AttrS tenant;
                  "recordId" := AttrS recordId;
                  "dataCid" := AttrS dataCid;
                  "recordIdDataCid" := AttrS (recordIdDataCid recordId dataCid);
                  "data" := AttrB bytes ]} |}) ;;
  ret {| put_dataSize := length bytes |}.

Definition delete (tenant recordId dataCid : string) : M E unit :=
  send (DeleteItemCommand
          {| delete_TableName := tableName;
             delete_Key := dataKey tenant recordId dataCid |}).

Definition clearItem (item : Item) : M E unit :=
  match item !! "tenant" ≫= attrS, item !! "recordIdDataCid" ≫= attrS with
  | Some tenant, Some key =>
    send (DeleteItemCommand
            {| delete_TableName := tableName;
               delete_Key := {[ "tenant" := AttrS tenant;
                                "recordIdDataCid" := AttrS key ]} |})
  | _, _ => throw TypeError
  end.

Fixpoint clearLoop (fuel : nat) (scanParams : ScanCommandInput) : M E bool :=
  match fuel with
  | 0 => ret false
  | S fuel =>
    scanResult <- send (ScanCommand scanParams) ;;
    match scan_Items scanResult with
    | None => throw TypeError
    | Some items =>
      traverse clearItem items ;;
      match scan_LastEvaluatedKey scanResult with
      | Some key =>
        clearLoop fuel {| scan_TableName := scan_TableName scanParams;
                          scan_ExclusiveStartKey := Some key |}
      | None => ret true
      end
    end
  end.

Definition clear (fuel : nat) : M E bool :=
  try_catch
    (clearLoop fuel {| scan_TableName := tableName; scan_ExclusiveStartKey := None |})
    (fun err => ret true).
End Methods.

(** The reference service for this table: items are keyed by
    [(tenant, recordIdDataCid)]; the store sends it no query. *)
Definition primaryKey (item : Item) : option AttributeValue * option AttributeValue :=
  (item !! "tenant", item !! "recordIdDataCid").

Definition hasKey (key : Item) (item : Item) : bool :=
  bool_decide (primaryKey item = primaryKey key).

Definition run {R} (c : Command R) (s : DynamoDB.Service) : Result R * DynamoDB.Service :=
  match c in Command R return Result R * DynamoDB.Service with
  | GetItemCommand input =>
    (Ok (DynamoDB.project (get_AttributesToGet input)
           <$> List.find (hasKey (get_Key input)) (DynamoDB.rows s)), s)
  | PutItemCommand input =>
    if DynamoDB.available s
    then (Ok tt,
          {| DynamoDB.rows :=
               List.filter (fun i => negb (hasKey (put_Item input) i)) (DynamoDB.rows s)
                 ++ [put_Item input];
             DynamoDB.available := true;
             DynamoDB.capacity := DynamoDB.capacity s |})
    else (Throw (BackendError "ServiceUnavailable"), s)
  | DeleteItemCommand input =>
    if DynamoDB.available s
    then (Ok tt,
          {| DynamoDB.rows :=
               List.filter (fun i => negb (hasKey (delete_Key input) i)) (DynamoDB.rows s);
             DynamoDB.available := true;
             DynamoDB.capacity := DynamoDB.capacity s |})
    else (Throw (BackendError "ServiceUnavailable"), s)
  | ScanCommand input =>
    (Ok {| scan_Items := Some (DynamoDB.rows s); scan_LastEvaluatedKey := None |}, s)
  | QueryCommand input =>
    (Throw (BackendError "ValidationException"), s)
  end.

Definition withDataTable (E : Env) : Env :=
  {| Backend := DynamoDB.Service;
     client_send := @run;
     block_encode := block_encode E;
     block_decode := block_decode E;
     extractTagsAndSanitizeIndexes := extractTagsAndSanitizeIndexes E;
     JSON_stringify := JSON_stringify E;
     JSON_parse := JSON_parse E |}.

Definition world (E : Env) (rows : list Item) (up : bool) : World (withDataTable E) :=
  Build_World (withDataTable E)
    {| DynamoDB.rows := rows; DynamoDB.available := up; DynamoDB.capacity := length |}
    [] ∅.

End DataStoreNoSql.

(** A service with a budget of commands: it answers as the reference
    service does while the budget lasts, and rejects every command after. *)
Module Throttled.

Record Service := { budget : nat; table : list Item }.

Definition run {R} (c : Command R) (s : Service) : Result R * Service :=
  match budget s with
  | 0 => (Throw (BackendError "ThrottlingException"), s)
  | S n =>
    let (r, t) :=
      DynamoDB.run c {| DynamoDB.rows := table s; DynamoDB.available := true;
                        DynamoDB.capacity := length |} in
    (r, {| budget := n; table := DynamoDB.rows t |})
  end.

Definition env : Env :=
  {| Backend := Service;
     client_send := @run;
     block_encode := Sample.encode;
     block_decode := Sample.decode;
     extractTagsAndSanitizeIndexes := fun _ => (∅, ∅);
     JSON_stringify := Sample.stringify;
     JSON_parse := Sample.parse |}.

Definition world (n : nat) (rows : list Item) : World env :=
  Build_World env {| budget := n; table := rows |} [] ∅.

End Throttled.

(** A backend that answers the queries it receives with the outputs of a
    script, in turn, whatever they ask. *)
Module Scripted.

Definition run {R} (c : Command R) (script : list QueryCommandOutput)
    : Result R * list QueryCommandOutput :=
  match c in Command R return Result R * list QueryCommandOutput with
  | QueryCommand _ =>
    match script with
    | answer :: script' => (Ok answer, script')
    | [] => (Throw (BackendError "ThrottlingException"), [])
    end
  | _ => (Throw (BackendError "ValidationException"), script)
  end.

Definition env : Env :=
  {| Backend := list QueryCommandOutput;
     client_send := @run;
     block_encode := Sample.encode;
     block_decode := Sample.decode;
     extractTagsAndSanitizeIndexes := fun _ => (∅, ∅);
     JSON_stringify := Sample.stringify;
     JSON_parse := Sample.parse |}.

Definition world (script : list QueryCommandOutput) : World env :=
  Build_World env script [] ∅.

End Scripted.

(** ** More vocabulary *)

(** The inline data [getEncodedData] takes out of a message. *)
Definition inlineDataOf (m : GenericMessage) : option string :=
  match encodedData m with
  | Some data => if isRecordsWrite m && negb (String.eqb data "") then Some data else None
  | None => None
  end.

(** The item [put] writes for a message object that holds [m]. *)
Definition putItemOf (E : Env) (tenant : string) (m : GenericMessage)
    (indexes : KeyValues) : Item :=
  let encodedMessageBlock := block_encode E (afterGetEncodedData m) in
  let item : Item :=
    (extractTagsAndSanitizeIndexes E indexes).1 ∪
      ((extractTagsAndSanitizeIndexes E indexes).2 ∪
         {[ "tenant" := AttrS tenant;
            "messageCid" := AttrS (cid encodedMessageBlock);
            "encodedMessageBytes" := AttrB (blockBytes encodedMessageBlock) ]}) in
  match inlineDataOf m with
  | Some data => <[ "encodedData" := AttrS data ]> item
  | None => item
  end.

(** The attribute names [put] and [get] give a meaning to. *)
Definition reservedAttributes : list string :=
  ["tenant"; "messageCid"; "encodedMessageBytes"; "encodedData"].

(** The character of the separator ["|"]. *)
Definition bar : Ascii.ascii :=
  Eval cbv in match "|" with String c _ => c | EmptyString => Ascii.zero end.

(** No bar in a string: the separator does not occur in it. *)
Fixpoint barFree (s : string) : bool :=
  match s with
  | EmptyString => true
  | String c s' => negb (Ascii.eqb c bar) && barFree s'
  end.

(** Commands that read the table. *)
Definition isRead (s : Sent) : Prop :=
  match s with
  | sentCommand (GetItemCommand _) => True
  | sentCommand (QueryCommand _) => True
  | sentCommand (ScanCommand _) => True
  | _ => False
  end.

(** A program that sends only reads and leaves the caller's objects as
    they are. *)
Definition readsOnly (E : Env) {A} (m : M E A) : Prop :=
  forall w, heap (m w).2 = heap w
            /\ exists l, sent (m w).2 = sent w ++ l /\ Forall isRead l.

(** A row that [clear] can delete: both key attributes are strings. *)
Definition keyed (item : Item) : Prop :=
  is_Some (item !! "tenant" ≫= attrS) /\ is_Some (item !! "messageCid" ≫= attrS).

(** * Properties *)

(** ** Filter evaluation *)

Section Filter.
Context {E : Env}.

Lemma strict_ne_S_false (item : Item) key expectedValue :
  strict_ne_S (item !! key ≫= attrS) expectedValue = false
  <-> pairMatches item (key, expectedValue).
Proof.
  unfold pairMatches. simpl. split.
  - destruct (item !! key ≫= attrS) as [s|], expectedValue as [[e| |]| |];
      simpl; try discriminate.
    intros He. apply negb_false_iff, String.eqb_eq in He. subst. eauto.
  - intros (s & -> & ->). simpl. by rewrite String.eqb_refl.
Qed.

Lemma hasOwnProperty_plain (item : Item) key (w : World E) :
  item !! "hasOwnProperty" = None ->
  hasOwnProperty item key w = (Ok (bool_decide (is_Some (item !! key))), w).
Proof. unfold hasOwnProperty. by intros ->. Qed.

Lemma hasOwnProperty_shadowed (item : Item) key (w : World E) :
  is_Some (item !! "hasOwnProperty") ->
  hasOwnProperty item key w = (Throw TypeError, w).
Proof. unfold hasOwnProperty. by intros [av ->]. Qed.

(** The inner loop on an item that does not shadow [hasOwnProperty]: the
    flag survives exactly when every pair of the clause matches. *)
Lemma innerFilterMatch_plain (item : Item) (filter : Filter) (w : World E) :
  item !! "hasOwnProperty" = None ->
  innerFilterMatch item filter w = (Ok (bool_decide (clauseMatches item filter)), w).
Proof.
  intros Hplain. unfold innerFilterMatch.
  match goal with |- foldlM ?f true filter w = _ =>
    enough (Hloop : forall acc, foldlM f acc filter w
              = (Ok (acc && bool_decide (clauseMatches item filter)), w))
      by apply Hloop
  end.
  unfold clauseMatches.
  induction filter as [|[key expectedValue] filter IH]; intros acc; cbn [foldlM].
  - unfold ret. rewrite bool_decide_eq_true_2 by constructor. by rewrite andb_true_r.
  - unfold bind at 1. unfold bind at 1. rewrite (hasOwnProperty_plain _ _ _ Hplain).
    pose proof (strict_ne_S_false item key expectedValue) as Hpair.
    destruct (decide (pairMatches item (key, expectedValue))) as [Hm|Hm].
    + assert (Hhas : bool_decide (is_Some (item !! key)) = true).
      { apply bool_decide_eq_true_2. destruct Hm as (s & Hs & _). simpl in Hs.
        destruct (item !! key); [eauto | discriminate]. }
      rewrite Hhas. apply Hpair in Hm. rewrite Hm. cbn [negb orb].
      unfold ret at 1. rewrite IH. do 3 f_equal.
      apply bool_decide_ext. rewrite Forall_cons. apply Hpair in Hm. tauto.
    + assert (Hclear : negb (bool_decide (is_Some (item !! key)))
                       || strict_ne_S (item !! key ≫= attrS) expectedValue = true).
      { clear Hpair.
        destruct (strict_ne_S (item !! key ≫= attrS) expectedValue) eqn:Hne;
          [apply orb_true_r |].
        by apply strict_ne_S_false in Hne. }
      rewrite Hclear. unfold ret at 1. rewrite IH. cbn [andb].
      rewrite bool_decide_eq_false_2; [by rewrite andb_false_r |].
      rewrite Forall_cons. tauto.
Qed.

(** On an item that shadows it, the first pair tested throws. *)
Lemma innerFilterMatch_shadowed (item : Item) (filter : Filter) (w : World E) :
  is_Some (item !! "hasOwnProperty") ->
  innerFilterMatch item filter w
  = (match filter with [] => Ok true | _ => Throw TypeError end, w).
Proof.
  intros Hshadow. unfold innerFilterMatch.
  destruct filter as [|[key expectedValue] filter]; [done |].
  cbn [foldlM]. unfold bind at 1. unfold bind at 1.
  by rewrite (hasOwnProperty_shadowed _ _ _ Hshadow).
Qed.

Lemma filterMatchCount_plain (item : Item) (filters : list Filter) (w : World E) :
  item !! "hasOwnProperty" = None ->
  filterMatchCount item filters w
  = (Ok (length (filter (clauseMatches item) filters)), w).
Proof.
  intros Hplain. unfold filterMatchCount.
  match goal with |- foldlM ?f 0 filters w = _ =>
    enough (Hloop : forall n, foldlM f n filters w
              = (Ok (n + length (filter (clauseMatches item) filters)), w))
      by apply Hloop
  end.
  induction filters as [|clause filters IH]; intros n; cbn [foldlM].
  - unfold ret. rewrite filter_nil. simpl. by rewrite Nat.add_0_r.
  - unfold bind at 1. unfold bind at 1. rewrite (innerFilterMatch_plain _ _ _ Hplain).
    unfold ret at 1. rewrite IH. rewrite filter_cons.
    destruct (decide (clauseMatches item clause)) as [Hm|Hm].
    + rewrite bool_decide_eq_true_2 by done. simpl. do 2 f_equal. lia.
    + by rewrite bool_decide_eq_false_2.
Qed.

Lemma filterMatchCount_shadowed (item : Item) (filters : list Filter) (w : World E) :
  is_Some (item !! "hasOwnProperty") ->
  filterMatchCount item filters w
  = (if decide (Exists (fun clause : Filter => clause ≠ []) filters)
     then Throw TypeError else Ok (length filters), w).
Proof.
  intros Hshadow. unfold filterMatchCount.
  match goal with |- foldlM ?f 0 filters w = _ =>
    enough (Hloop : forall n, foldlM f n filters w
              = (if decide (Exists (fun clause : Filter => clause ≠ []) filters)
                 then Throw TypeError else Ok (n + length filters), w))
      by apply Hloop
  end.
  induction filters as [|clause filters IH]; intros n; cbn [foldlM].
  - unfold ret. rewrite decide_False by (by intros ?%Exists_nil).
    simpl. by rewrite Nat.add_0_r.
  - unfold bind at 1. unfold bind at 1.
    rewrite (innerFilterMatch_shadowed _ _ _ Hshadow).
    destruct clause as [|pair clause].
    + unfold ret at 1. rewrite IH.
      destruct (decide (Exists _ filters)) as [Hex|Hex].
      * rewrite decide_True; [done | by right].
      * rewrite decide_False; [do 2 f_equal; simpl; lia |].
        intros [?|?]%Exists_cons; done.
    + rewrite decide_True; [done | by left].
Qed.

(** The callback of the filter step, in full. *)
Lemma filterPredicate_run (filters : list Filter) (item : Item) (w : World E) :
  filterPredicate filters item w
  = (if decide (filterFails filters [item]) then Throw TypeError
     else Ok (bool_decide (Exists (clauseMatches item) filters)), w).
Proof.
  unfold filterPredicate, bind, filterFails.
  destruct (item !! "hasOwnProperty") as [av|] eqn:Hown.
  - rewrite filterMatchCount_shadowed by (rewrite Hown; eauto).
    destruct (decide (Exists (fun clause : Filter => clause ≠ []) filters)) as [Hex|Hex].
    + rewrite decide_True; [done |]. split; [| done]. left. rewrite Hown. eauto.
    + rewrite decide_False by tauto. unfold ret. do 2 f_equal.
      assert (Hall : Forall (fun clause : Filter => clause = []) filters).
      { apply Forall_forall. intros clause Hin. destruct clause as [|pair clause]; [done |].
        exfalso. apply Hex, Exists_exists. exists (pair :: clause). by split. }
      destruct filters as [|clause filters].
      * by rewrite bool_decide_eq_false_2 by (by intros ?%Exists_nil).
      * rewrite bool_decide_eq_true_2; [done |]. left.
        apply Forall_cons in Hall as [-> _]. constructor.
  - rewrite filterMatchCount_plain by done.
    rewrite decide_False.
    2:{ intros [[Hs|Hs]%Exists_cons _]; [| by apply Exists_nil in Hs].
        rewrite Hown in Hs. by destruct Hs. }
    unfold ret. do 2 f_equal.
    induction filters as [|clause filters IH].
    + by rewrite bool_decide_eq_false_2 by (by intros ?%Exists_nil).
    + rewrite filter_cons. destruct (decide (clauseMatches item clause)) as [Hm|Hm].
      * rewrite bool_decide_eq_true_2; [done | by left].
      * rewrite IH. apply bool_decide_ext. rewrite Exists_cons. tauto.
Qed.

(** The filter step, in full: it throws when some item shadows
    [hasOwnProperty] and some clause has a pair, and keeps the matching
    items otherwise.  It never touches the world. *)
Lemma filteredItems_run (filters : list Filter) (items : list Item) (w : World E) :
  filteredItems filters items w
  = (if decide (filterFails filters items) then Throw TypeError
     else Ok (matching filters items), w).
Proof.
  unfold filteredItems, matching.
  induction items as [|item items IH]; cbn [filterM].
  - unfold ret. rewrite decide_False; [done |].
    unfold filterFails. by intros [?%Exists_nil _].
  - unfold bind at 1. rewrite filterPredicate_run.
    unfold filterFails in *.
    destruct (decide (Exists _ [item] /\ _)) as [[Hitem Hclause]|Hitem].
    + rewrite decide_True; [done |]. split; [| done].
      apply Exists_cons in Hitem as [?|?%Exists_nil]; [by left | done].
    + unfold bind at 1. rewrite IH.
      destruct (decide (Exists _ items /\ _)) as [[Hrest Hclause]|Hrest].
      * rewrite decide_True; [done |]. split; [by right | done].
      * rewrite decide_False.
        2:{ intros [[?|?]%Exists_cons ?]; [apply Hitem | apply Hrest]; split; try done.
            by left. }
        unfold ret. rewrite filter_cons.
        by destruct (decide (Exists (clauseMatches item) filters));
          [rewrite bool_decide_eq_true_2 | rewrite bool_decide_eq_false_2].
Qed.

Lemma filteredItems_plain (filters : list Filter) (items : list Item) (w : World E) :
  ¬ filterFails filters items ->
  filteredItems filters items w = (Ok (matching filters items), w).
Proof. intros Hplain. by rewrite filteredItems_run, decide_False. Qed.

Lemma filterFails_plain (filters : list Filter) (items : list Item) :
  Forall (fun item : Item => item !! "hasOwnProperty" = None) items ->
  ¬ filterFails filters items.
Proof.
  rewrite Forall_forall. intros Hplain [(item & Hin & Hown)%Exists_exists _].
  rewrite (Hplain _ Hin) in Hown. by destruct Hown.
Qed.
End Filter.

Lemma matching_app filters (l1 l2 : list Item) :
  matching filters (l1 ++ l2) = matching filters l1 ++ matching filters l2.
Proof. apply filter_app. Qed.

Lemma matching_length filters (l : list Item) :
  length (matching filters l) ≤ length l.
Proof. apply length_filter. Qed.

Lemma elem_of_matching filters (l : list Item) x :
  x ∈ matching filters l <-> x ∈ l /\ Exists (clauseMatches x) filters.
Proof. unfold matching. rewrite list_elem_of_filter. tauto. Qed.

(** C2, as the code has it.  On an item that has no attribute named
    [hasOwnProperty], the filter step answers without throwing, and the
    item passes exactly when at least one clause has all of its pairs
    equal, as strings, to the item's attributes; a clause that names an
    attribute the item lacks does not match, and nothing is thrown; with an
    empty clause list no clause matches, so no item passes.  The items
    kept of a list are, in order, those that pass. *)
Theorem filterPredicate_dnf (E : Env) (filters : list Filter) (item : Item)
    (w : World E) :
  item !! "hasOwnProperty" = None ->
  (exists pass : bool,
     filterPredicate filters item w = (Ok pass, w)
     /\ (pass = true <-> Exists (clauseMatches item) filters))
  /\ (forall clause key expectedValue,
        (key, expectedValue) ∈ clause -> item !! key = None ->
        innerFilterMatch item clause w = (Ok false, w))
  /\ filterPredicate [] item w = (Ok false, w)
  /\ (forall items,
        Forall (fun x : Item => x !! "hasOwnProperty" = None) items ->
        exists kept,
          filteredItems filters items w = (Ok kept, w)
          /\ kept = filter (fun x => Exists (clauseMatches x) filters) items
          /\ forall x, x ∈ kept <-> x ∈ items /\ Exists (clauseMatches x) filters).
Proof.
  intros Hplain.
  assert (Hitem : forall fs, ¬ filterFails fs [item]).
  { intros fs. apply filterFails_plain. by constructor. }
  split; [| split; [| split]].
  - eexists. rewrite filterPredicate_run, decide_False by apply Hitem.
    split; [reflexivity |]. apply bool_decide_eq_true.
  - intros clause key expectedValue Hin Hnone.
    rewrite innerFilterMatch_plain by done. do 2 f_equal.
    apply bool_decide_eq_false_2. unfold clauseMatches. rewrite Forall_forall.
    intros Hall. destruct (Hall _ Hin) as (s & Hs & _). simpl in Hs.
    rewrite Hnone in Hs. discriminate.
  - rewrite filterPredicate_run, decide_False by apply Hitem. reflexivity.
  - intros items Hitems. exists (matching filters items).
    split; [apply filteredItems_plain, filterFails_plain, Hitems |].
    split; [reflexivity | apply elem_of_matching].
Qed.

Lemma filterPredicate_dnf_witness :
  let w := Sample.world [] true ∅ in
  Sample.r2 !! "hasOwnProperty" = None
  /\ exists pass : bool,
       filterPredicate Sample.tasks Sample.r2 w = (Ok pass, w)
       /\ (pass = true <-> Exists (clauseMatches Sample.r2) Sample.tasks).
Proof.
  split; [vm_compute; reflexivity |].
  apply (filterPredicate_dnf Sample.env Sample.tasks Sample.r2 (Sample.world [] true ∅)).
  vm_compute. reflexivity.
Defined.

(** C2, the part that fails: with an empty clause list the filter step
    drops every item instead of keeping it. *)
Lemma empty_filters_drop_every_item :
  let w := Sample.world [] true ∅ in
  (filterPredicate [] Sample.r1 w).1 = Ok false
  /\ (filteredItems [] [Sample.r1; Sample.r2; Sample.r3] w).1 = Ok [].
Proof. split; vm_compute; reflexivity. Qed.

(** The three items of the specification's example, against the clauses
    [[{a:1,b:2}, {c:3}]]. *)
Example filterPredicate_spec_example :
  let clauses : list Filter :=
    [[("a", FEqual (FString "1")); ("b", FEqual (FString "2"))];
     [("c", FEqual (FString "3"))]] in
  let item (a b c : string) : Item :=
    {[ "a" := AttrS a; "b" := AttrS b; "c" := AttrS c ]} in
  let w := Sample.world [] true ∅ in
  (filterPredicate clauses (item "1" "2" "9") w).1 = Ok true
  /\ (filterPredicate clauses (item "1" "9" "3") w).1 = Ok true
  /\ (filterPredicate clauses (item "1" "9" "9") w).1 = Ok false.
Proof. repeat split; vm_compute; reflexivity. Qed.

(** An item that carries an attribute named [hasOwnProperty] makes the
    filter step throw as soon as a clause has a pair to test. *)
Example filter_trips_on_hasOwnProperty :
  let item : Item := <[ "hasOwnProperty" := AttrS "x" ]> Sample.r2 in
  let w := Sample.world [] true ∅ in
  (filterPredicate Sample.tasks item w).1 = Throw TypeError
  /\ (filteredItems Sample.tasks [Sample.r1; item] w).1 = Throw TypeError
  /\ (filterPredicate Sample.anything item w).1 = Ok true.
Proof. repeat split; vm_compute; reflexivity. Qed.

(** ** Cancellation and failures *)

Section Entry.
Context {E : Env}.

Lemma throwIfAborted_aborted (options : option MessageStoreOptions) :
  isAborted options = true ->
  exists reason, forall w : World E,
    throwIfAborted options w = (Throw (Aborted reason), w).
Proof.
  unfold isAborted, throwIfAborted.
  destruct (options ≫= signal) as [s|]; [| discriminate].
  intros ->. by exists (reason s).
Qed.

Lemma throwIfAborted_ok (options : option MessageStoreOptions) (w : World E) :
  isAborted options = false -> throwIfAborted options w = (Ok tt, w).
Proof.
  unfold isAborted, throwIfAborted.
  destruct (options ≫= signal) as [s|]; [| done]. by intros ->.
Qed.

Lemma appends_ret {A} (a : A) : appends E (ret a).
Proof. intros w. exists []. by rewrite app_nil_r. Qed.

Lemma appends_throw {A} e : appends E (throw e : M E A).
Proof. intros w. exists []. by rewrite app_nil_r. Qed.

Lemma appends_send {R} (c : Command R) : appends E (send c).
Proof.
  intros w. exists [sentCommand c]. unfold send.
  by destruct (client_send E R c (backend w)).
Qed.

Lemma appends_bind {A B} (m : M E A) (k : A -> M E B) :
  appends E m -> (forall a, appends E (k a)) -> appends E (bind m k).
Proof.
  intros Hm Hk w. unfold bind. destruct (Hm w) as [l Hl].
  destruct (m w) as [[a|e] w'] eqn:Hmw; simpl in *.
  - destruct (Hk a w') as [l' Hl']. exists (l ++ l').
    by rewrite Hl', Hl, app_assoc.
  - by exists l.
Qed.

Lemma appends_mapM {A B} (f : A -> M E B) (l : list A) :
  (forall a, appends E (f a)) -> appends E (traverse f l).
Proof.
  intros Hf. induction l as [|a l IH]; simpl.
  - apply appends_ret.
  - apply appends_bind; [apply Hf |]. intros b.
    apply appends_bind; [apply IH |]. intros bs. apply appends_ret.
Qed.

Lemma appends_clearItem (item : Item) : appends E (clearItem item).
Proof.
  unfold clearItem.
  destruct (item !! "tenant" ≫= attrS), (item !! "messageCid" ≫= attrS);
    auto using appends_send, appends_throw.
Qed.

Lemma appends_clearLoop (fuel : nat) (scanParams : ScanCommandInput) :
  appends E (clearLoop fuel scanParams).
Proof.
  revert scanParams. induction fuel as [|fuel IH]; intros scanParams; simpl.
  - apply appends_ret.
  - apply appends_bind; [apply appends_send |]. intros scanResult.
    destruct (scan_Items scanResult) as [items|]; [| apply appends_throw].
    apply appends_bind; [apply appends_mapM, appends_clearItem |]. intros _.
    destruct (scan_LastEvaluatedKey scanResult); [apply IH | apply appends_ret].
Qed.
End Entry.

(** C8, as the code has it.  [put], [query] and [delete] take the options
    of the call, and with a signal that is already aborted they throw the
    signal's reason and leave the world as it was: no command is sent and
    no object is touched.  [clear] takes no options: whatever the caller's
    signal, a call starts by sending a scan of the table. *)
Theorem aborted_at_entry (E : Env) (options : option MessageStoreOptions) :
  isAborted options = true ->
  exists s, options ≫= signal = Some s /\ forall w : World E,
    (forall tenant message indexes,
       put tenant message indexes options w = (Throw (Aborted (reason s)), w))
    /\ (forall tenant filters messageSort pagination,
          query tenant filters messageSort pagination options w
          = (Throw (Aborted (reason s)), w))
    /\ (forall tenant cid,
          delete tenant cid options w = (Throw (Aborted (reason s)), w))
    /\ (forall fuel, exists rest,
          sent (clear (S fuel) w).2
          = sent w
              ++ sentCommand (ScanCommand {| scan_TableName := tableName;
                                             scan_ExclusiveStartKey := None |})
              :: rest).
Proof.
  intros Hab.
  assert (Hsignal : exists s, options ≫= signal = Some s /\ aborted s = true).
  { unfold isAborted in Hab. destruct (options ≫= signal) as [s|]; [eauto | done]. }
  destruct Hsignal as (s & Hs & Hs_aborted). exists s. split; [done |].
  assert (Hthrow : forall w : World E,
            throwIfAborted options w = (Throw (Aborted (reason s)), w)).
  { intros w. unfold throwIfAborted. by rewrite Hs, Hs_aborted. }
  intros w. repeat split.
  - intros. unfold put, bind. by rewrite Hthrow.
  - intros. unfold query, bind. by rewrite Hthrow.
  - intros. unfold delete, bind. by rewrite Hthrow.
  - intros fuel. unfold clear, try_catch. simpl. unfold bind at 1.
    set (scan := ScanCommand _).
    pose proof (appends_send scan w) as [l0 Hl0].
    assert (Hfirst : sent (send scan w).2 = sent w ++ [sentCommand scan]).
    { unfold send. by destruct (client_send E _ scan (backend w)). }
    destruct (send scan w) as [[scanResult|e] w1] eqn:Hsend; simpl in Hfirst.
    + set (k := match scan_Items scanResult with Some _ => _ | None => _ end).
      assert (Hk : appends E k).
      { subst k. destruct (scan_Items scanResult) as [items|]; [| apply appends_throw].
        apply appends_bind; [apply appends_mapM, appends_clearItem |]. intros _.
        destruct (scan_LastEvaluatedKey scanResult);
          [apply appends_clearLoop | apply appends_ret]. }
      destruct (Hk w1) as [l Hl]. exists l.
      destruct (k w1) as [[b|e] w2]; simpl in *; by rewrite Hl, Hfirst, <- app_assoc.
    + exists []. simpl. by rewrite Hfirst.
Qed.

Lemma aborted_at_entry_witness :
  isAborted Sample.aborting = true
  /\ put "T" 1 ∅ Sample.aborting (Sample.world [Sample.r1] true ∅)
     = (Throw (Aborted "AbortError"), Sample.world [Sample.r1] true ∅).
Proof.
  split; [reflexivity |].
  destruct (aborted_at_entry Sample.env Sample.aborting eq_refl) as (s & Hs & H).
  injection Hs as <-. apply H.
Defined.

(** C8, the part that fails: called by a caller whose signal is already
    aborted, [clear] returns normally after scanning the table and deleting
    what the scan returned. *)
Lemma clear_ignores_cancellation :
  let w := Sample.world [Sample.r1] true ∅ in
  isAborted Sample.aborting = true
  /\ (outcome (OpClear 1) Sample.aborting w).1 = None
  /\ sent (outcome (OpClear 1) Sample.aborting w).2
     = [sentCommand (ScanCommand {| scan_TableName := tableName;
                                    scan_ExclusiveStartKey := None |});
        sentCommand (DeleteItemCommand {| delete_TableName := tableName;
                                          delete_Key := marshallKey "T" "c1" |})].
Proof. repeat split; vm_compute; reflexivity. Qed.

(** [get] checks the signal inside its [try]: the abort is caught and the
    call returns [undefined]. *)
Lemma get_never_throws (E : Env) tenant cid options (w : World E) :
  exists r w', get tenant cid options w = (Ok r, w').
Proof.
  unfold get, try_catch.
  match goal with |- context [match ?b w with _ => _ end] => destruct (b w) as [[r|e] w'] end;
    eauto.
Qed.

Lemma put_outcome (E : Env) tenant message m indexes options (w : World E) :
  isAborted options = false ->
  heap w !! message = Some m ->
  exists input w',
    put tenant message indexes options w = (Ok tt, w')
    /\ sent w' = sent w ++ [sentCommand (PutItemCommand input)]
    /\ heap w' = <[message := afterGetEncodedData m]> (heap w).
Proof.
  intros Hab Hm. unfold put, bind at 1. rewrite (throwIfAborted_ok _ _ Hab).
  unfold bind at 1.
  assert (Hstrip : exists data,
    getEncodedData message w
    = (Ok (message, data),
       {| backend := backend w; sent := sent w;
          heap := <[message := afterGetEncodedData m]> (heap w) |})).
  { unfold getEncodedData, bind at 1, deref, afterGetEncodedData, isRecordsWrite.
    rewrite Hm. destruct w as [b s h]. simpl in *.
    destruct (encodedData m) as [data|];
      destruct (_ && _); simpl;
      try (destruct (negb _); run_monad);
      try (unfold ret; exists None; by rewrite (insert_id h message m));
      eauto. }
  destruct Hstrip as (data & ->). simpl.
  unfold bind at 1, deref. simpl. rewrite lookup_insert_eq.
  destruct (extractTagsAndSanitizeIndexes E indexes) as [putIndexes tags].
  unfold try_catch, send. simpl.
  match goal with |- context [client_send E unit (PutItemCommand ?i) ?b] =>
    exists i; destruct (client_send E unit (PutItemCommand i) b) as [[[]|e] b'] end;
    eauto.
Qed.

(** C5, what the code does instead.  Whatever the backend answers to the
    write, a rejection included, [put] returns normally once it has sent
    it. *)
Theorem put_swallows_write_failure (E : Env) tenant message m indexes options
    (w : World E) :
  isAborted options = false ->
  heap w !! message = Some m ->
  exists input w',
    put tenant message indexes options w = (Ok tt, w')
    /\ sent w' = sent w ++ [sentCommand (PutItemCommand input)].
Proof.
  intros Hab Hm.
  destruct (put_outcome E tenant message m indexes options w Hab Hm)
    as (input & w' & Hput & Hsent & _).
  eauto.
Qed.

Lemma put_swallows_write_failure_witness :
  let w := Sample.world [] false {[ 1 := Sample.m1 ]} in
  (exists input,
     (client_send Sample.env unit (PutItemCommand input) (backend w)).1
     = Throw (BackendError "ServiceUnavailable"))
  /\ exists input w',
       put "T" 1 ∅ None w = (Ok tt, w')
       /\ sent w' = sent w ++ [sentCommand (PutItemCommand input)].
Proof.
  split.
  - exists {| put_TableName := tableName; put_Item := ∅ |}. reflexivity.
  - apply (put_swallows_write_failure Sample.env "T" 1 Sample.m1 ∅ None);
      reflexivity.
Defined.

(** The failed write at work: the service rejects the item, [put] returns,
    and the table is as empty as before. *)
Example put_loses_the_record :
  let w := Sample.world [] false {[ 1 := Sample.m1 ]} in
  (put "T" 1 ∅ None w).1 = Ok tt
  /\ DynamoDB.rows (backend (put "T" 1 ∅ None w).2) = []
  /\ (get "T" "c1" None (put "T" 1 ∅ None w).2).1 = Ok None.
Proof. repeat split; vm_compute; reflexivity. Qed.

(** ** Decoding *)

Lemma parseEncodedMessage_decodeItem (E : Env) (r : Item) av options (w : World E) :
  isAborted options = false ->
  r !! "encodedMessageBytes" = Some av ->
  parseEncodedMessage (default [] (attrB av)) (r !! "encodedData" ≫= attrS) options w
  = (match decodeItem E r with
     | Some m => Ok m
     | None => Throw DecodeError
     end, w).
Proof.
  intros Hab Hav. unfold parseEncodedMessage, decodeItem, bind.
  rewrite (throwIfAborted_ok _ _ Hab), Hav. simpl.
  destruct (block_decode E (default [] (attrB av))) as [message|]; simpl; [| done].
  by destruct (r !! "encodedData" ≫= attrS).
Qed.

(** C6, what the code does instead.  When the stored item does not decode,
    [get] returns [undefined], the answer it gives when there is no item:
    the decode error is caught by the empty [catch]. *)
Theorem get_swallows_decode_error (E : Env) tenant cid options (w : World E)
    (item : Item) (b : Backend E) :
  isAborted options = false ->
  client_send E _
    (GetItemCommand
       {| get_TableName := tableName;
          get_Key := marshallKey tenant cid;
          get_AttributesToGet :=
            ["tenant"; "messageCid"; "encodedMessageBytes"; "encodedData"] |})
    (backend w) = (Ok (Some item), b) ->
  decodeItem E item = None ->
  exists w', get tenant cid options w = (Ok None, w').
Proof.
  intros Hab Hsend Hdec. unfold get, try_catch, bind at 1.
  rewrite (throwIfAborted_ok _ _ Hab). unfold bind at 1, send. rewrite Hsend.
  destruct (item !! "tenant"); [| run_monad; eauto].
  destruct (item !! "messageCid"); [| run_monad; eauto].
  destruct (item !! "encodedMessageBytes") as [av|] eqn:Hav; [| run_monad; eauto].
  unfold bind. rewrite (parseEncodedMessage_decodeItem E item av options _ Hab Hav).
  rewrite Hdec. eauto.
Qed.

Lemma get_swallows_decode_error_witness :
  block_decode Sample.env [Byte.xff] = None
  /\ exists w',
       get "T" "c4" None (Sample.world [Sample.r4] true ∅) = (Ok None, w').
Proof.
  split; [reflexivity |].
  eapply (get_swallows_decode_error Sample.env "T" "c4" None
            (Sample.world [Sample.r4] true ∅));
    [reflexivity | vm_compute; reflexivity | vm_compute; reflexivity].
Defined.

(** The sibling path: [query] lets the same decode error through. *)
Example query_surfaces_decode_error :
  (query "T" Sample.anything Sample.byTimestamp None None
     (Sample.world [Sample.r4] true ∅)).1
  = Throw DecodeError.
Proof. vm_compute. reflexivity. Qed.

(** ** Content addressing *)

(** C7.  Encoding a message as [put] does (the inline data is taken out of
    the message object, then the object is block-encoded) and decoding the
    bytes with that inline data re-supplied gives back the message, as long
    as the block codec itself decodes what it encoded. *)
Theorem encode_decode_roundtrip (E : Env) (message : Ref) (m : GenericMessage)
    options (w : World E) :
  let stripped := afterGetEncodedData m in
  let encodedMessageBytes := blockBytes (block_encode E stripped) in
  isAborted options = false ->
  heap w !! message = Some m ->
  block_decode E encodedMessageBytes = Some stripped ->
  exists data w1,
    getEncodedData message w = (Ok (message, data), w1)
    /\ heap w1 !! message = Some stripped
    /\ forall w2 : World E,
         parseEncodedMessage encodedMessageBytes data options w2 = (Ok m, w2).
Proof.
  intros stripped encodedMessageBytes Hab Hm Hcodec.
  assert (Hparse : forall data w2,
    m = match data with
        | Some d => {| descriptor := descriptor stripped; encodedData := Some d;
                       otherProps := otherProps stripped |}
        | None => stripped
        end ->
    parseEncodedMessage (E := E) encodedMessageBytes data options w2 = (Ok m, w2)).
  { intros data w2 Heq. unfold parseEncodedMessage, bind.
    rewrite (throwIfAborted_ok _ _ Hab), Hcodec.
    destruct data; unfold ret; congruence. }
  subst encodedMessageBytes stripped.
  unfold getEncodedData, bind at 1, deref. rewrite Hm.
  unfold afterGetEncodedData, isRecordsWrite in *.
  destruct m as [d [data|] o]; simpl in *.
  - destruct (String.eqb (interface d) "Records" && String.eqb (method d) "Write");
      simpl in *.
    + destruct (String.eqb data "") eqn:Hempty; simpl in *.
      * exists None, w. run_monad. repeat split; [done |]. intros w2. by apply Hparse.
      * exists (Some data). eexists. run_monad. unfold assign. simpl.
        repeat split; [apply lookup_insert_eq |]. intros w2. by apply Hparse.
    + exists None, w. run_monad. repeat split; [done |]. intros w2. by apply Hparse.
  - exists None, w. split; [by destruct (_ && _) |].
    split; [done |]. intros w2. by apply Hparse.
Qed.

Lemma encode_decode_roundtrip_witness :
  let m := Sample.recordsWrite "r1" (Some "ZGF0YQ") in
  let w := Sample.world [] true {[ 1 := m ]} in
  block_decode Sample.env (blockBytes (block_encode Sample.env (afterGetEncodedData m)))
  = Some (afterGetEncodedData m)
  /\ exists data w1,
       getEncodedData 1 w = (Ok (1, data), w1)
       /\ heap w1 !! 1 = Some (afterGetEncodedData m)
       /\ forall w2 : World Sample.env,
            parseEncodedMessage [Byte.x01] data None w2 = (Ok m, w2).
Proof.
  split; [reflexivity |].
  apply (encode_decode_roundtrip Sample.env 1
           (Sample.recordsWrite "r1" (Some "ZGF0YQ")) None);
    reflexivity.
Defined.

(** The codec's own round trip holds in the witness: the stripped message
    is [m1], which the stand-in codec encodes and decodes. *)
Example roundtrip_through_the_store :
  let m := Sample.recordsWrite "r1" (Some "ZGF0YQ") in
  let w := Sample.world [] true {[ 1 := m ]} in
  (put "T" 1 ∅ None w).1 = Ok tt
  /\ (get "T" "c1" None (put "T" 1 ∅ None w).2).1 = Ok (Some m).
Proof. repeat split; vm_compute; reflexivity. Qed.

(** ** The caller's message object *)

(** C10, as the code has it.  When the message is a Records Write that
    carries a non-empty [encodedData], [put] deletes that property from the
    caller's message object: after the call the object has no
    [encodedData], its descriptor and other properties are what they were,
    and no other object has changed. *)
Theorem put_deletes_encodedData (E : Env) tenant message m data indexes options
    (w : World E) :
  isAborted options = false ->
  heap w !! message = Some m ->
  isRecordsWrite m = true ->
  encodedData m = Some data ->
  data ≠ "" ->
  exists w' m',
    put tenant message indexes options w = (Ok tt, w')
    /\ heap w' !! message = Some m'
    /\ encodedData m' = None
    /\ descriptor m' = descriptor m
    /\ otherProps m' = otherProps m
    /\ forall other, other ≠ message -> heap w' !! other = heap w !! other.
Proof.
  intros Hab Hm Hrw Hdata Hne.
  destruct (put_outcome E tenant message m indexes options w Hab Hm)
    as (input & w' & Hput & _ & Hheap).
  exists w', (withoutEncodedData m). rewrite Hheap.
  unfold afterGetEncodedData. rewrite Hdata, Hrw.
  apply String.eqb_neq in Hne. rewrite Hne. simpl.
  repeat split; [done | apply lookup_insert_eq |].
  intros other Hother. by apply lookup_insert_ne.
Qed.

Lemma put_deletes_encodedData_witness :
  let m := Sample.recordsWrite "r1" (Some "ZGF0YQ") in
  let w := Sample.world [] true {[ 1 := m; 2 := m ]} in
  exists w' m',
    put "T" 1 ∅ None w = (Ok tt, w')
    /\ heap w' !! 1 = Some m'
    /\ encodedData m' = None
    /\ descriptor m' = descriptor m
    /\ otherProps m' = otherProps m
    /\ forall other, other ≠ 1 -> heap w' !! other = heap w !! other.
Proof.
  apply (put_deletes_encodedData Sample.env "T" 1
           (Sample.recordsWrite "r1" (Some "ZGF0YQ")) "ZGF0YQ" ∅ None);
    [reflexivity | reflexivity | reflexivity | reflexivity | discriminate].
Defined.

(** C10, the part that fails: a Records Write that carries the empty string
    as [encodedData] keeps the property, since the empty string is falsy. *)
Lemma put_keeps_empty_encodedData :
  let m := Sample.recordsWrite "r1" (Some "") in
  let w := Sample.world [] true {[ 1 := m ]} in
  isRecordsWrite m = true
  /\ (put "T" 1 ∅ None w).1 = Ok tt
  /\ encodedData <$> heap (put "T" 1 ∅ None w).2 !! 1 = Some (Some "").
Proof. repeat split; vm_compute; reflexivity. Qed.

(** ** Pages *)

Section Pages.
Context {E : Env}.

Lemma foldlM_cleared {A} (f : bool -> A -> M E bool) (l : list A) (acc : bool)
    (w : World E) :
  (forall b a, f b a w = (Ok false, w)) ->
  foldlM f acc l w = (Ok (match l with [] => acc | _ => false end), w).
Proof.
  intros Hf. revert acc. induction l as [|a l IH]; intros acc; simpl; [done |].
  unfold bind. rewrite Hf, IH. by destruct l.
Qed.

(** The check on [LastEvaluatedKey], in full.  It runs when the answer
    has items, a positive [ScannedCount] and a key.  Every comparison of
    its loop finds a difference, so a key with at least one attribute
    stays; a key without attributes is removed, the loop having nothing to
    compare.  Reading the item at [ScannedCount - 1] throws when the answer
    has fewer items than that. *)
Lemma lastEvaluatedKeyCheck_run (data : QueryCommandOutput) (w : World E) :
  lastEvaluatedKeyCheck data w
  = (match ScannedCount data, Items data, LastEvaluatedKey data with
     | Some (S n), Some items, Some key =>
       if decide (key = ∅) then Ok (delete_LastEvaluatedKey data)
       else match items !! n with
            | Some _ => Ok data
            | None => Throw TypeError
            end
     | _, _, _ => Ok data
     end, w).
Proof.
  unfold lastEvaluatedKeyCheck.
  destruct (ScannedCount data) as [[|n]|]; [done | | done].
  destruct (Items data) as [items|]; [| done].
  destruct (LastEvaluatedKey data) as [key|]; [| done].
  destruct (decide (key = ∅)) as [->|Hkey].
  - by rewrite map_to_list_empty.
  - destruct (map_to_list key) as [|[k av] l] eqn:Hl.
    { by apply map_to_list_empty_iff in Hl. }
    destruct (items !! n) as [lastItem|] eqn:Hlast.
    + unfold bind. rewrite foldlM_cleared; [done |].
      by intros b [k' av'].
    + reflexivity.
Qed.

Lemma lastEvaluatedKeyCheck_keeps (items : list Item) (key : option Item)
    (w : World E) :
  key ≠ Some ∅ ->
  lastEvaluatedKeyCheck
    {| Items := Some items; ScannedCount := Some (length items);
       LastEvaluatedKey := key |} w
  = (Ok {| Items := Some items; ScannedCount := Some (length items);
           LastEvaluatedKey := key |}, w).
Proof.
  intros Hkey. rewrite lastEvaluatedKeyCheck_run. simpl.
  destruct (length items) as [|n] eqn:Hlen; [done |].
  destruct key as [key|]; [| done].
  rewrite decide_False by congruence.
  destruct (lookup_lt_is_Some_2 items n) as [lastItem ->]; [lia | done].
Qed.

Lemma traverse_parseArguments (results : list Item) (w : World E) :
  Forall (fun r => is_Some (r !! "encodedMessageBytes")) results ->
  traverse parseArguments results w
  = (Ok ((fun r => (default [] (r !! "encodedMessageBytes" ≫= attrB),
                    r !! "encodedData" ≫= attrS)) <$> results), w).
Proof.
  induction 1 as [|r results [av Hav] _ IH]; simpl; [done |].
  unfold bind. unfold parseArguments at 1. rewrite Hav. simpl. by rewrite IH.
Qed.

Lemma decodes_has_bytes (r : Item) (m : GenericMessage) :
  decodes E r m -> is_Some (r !! "encodedMessageBytes").
Proof.
  unfold decodes, decodeItem. destruct (r !! "encodedMessageBytes"); [eauto | done].
Qed.

Lemma traverse_parseEncodedMessage (results : list Item) (msgs : list GenericMessage)
    options (w : World E) :
  isAborted options = false ->
  Forall2 (decodes E) results msgs ->
  traverse (fun '(b, d) => parseEncodedMessage b d options)
    ((fun r => (default [] (r !! "encodedMessageBytes" ≫= attrB),
                r !! "encodedData" ≫= attrS)) <$> results) w
  = (Ok msgs, w).
Proof.
  intros Hab. induction 1 as [|r m results msgs Hrm _ IH]; simpl; [done |].
  destruct (decodes_has_bytes r m Hrm) as [av Hav].
  unfold bind. rewrite Hav. simpl.
  rewrite (parseEncodedMessage_decodeItem E r av options w Hab Hav).
  unfold decodes in Hrm. rewrite Hrm. unfold fmap in IH. by rewrite IH.
Qed.

(** [processPaginationResults] on items that decode: every item comes
    back, whatever [limit] says, and the cursor is made of the key that
    the backend reported, if any. *)
Lemma processPaginationResults_ok (results : list Item) (msgs : list GenericMessage)
    sortProperty lastEvaluatedKey limit options (w : World E) :
  isAborted options = false ->
  Forall2 (decodes E) results msgs ->
  processPaginationResults results sortProperty lastEvaluatedKey limit options w
  = (Ok {| messages := msgs; resultCursor := cursorOf E <$> lastEvaluatedKey |}, w).
Proof.
  intros Hab Hdec. unfold processPaginationResults, bind.
  rewrite traverse_parseArguments.
  - rewrite (traverse_parseEncodedMessage results msgs options w Hab Hdec).
    by destruct lastEvaluatedKey.
  - eapply Forall2_Forall_l; [exact Hdec |].
    apply Forall_true. intros m r Hrm. by eapply decodes_has_bytes.
Qed.
End Pages.

(** C3, what the code does instead.  [processPaginationResults] does not
    look at [limit]: given three results and limit two it returns all three
    and builds no cursor.  The cursor of [query] is the backend's
    [LastEvaluatedKey], which is there whenever the window was filled: a
    tenant with exactly two records, asked for a page of two, gets both
    with a cursor, and the next call returns an empty last page. *)
Theorem page_is_not_pruned :
  let w3 := Sample.world [Sample.r1; Sample.r2; Sample.r3] true ∅ in
  let w2 := Sample.world [Sample.r1; Sample.r2] true ∅ in
  let c2 := {| messageCid := "c2"; value := "c2" |} in
  processPaginationResults [Sample.r1; Sample.r2; Sample.r3]
    "messageTimestamp" None (Some 2) None w3
  = (Ok {| messages := [Sample.m1; Sample.m2; Sample.m3]; resultCursor := None |}, w3)
  /\ (query "T" Sample.anything Sample.byTimestamp (Sample.page 2) None w2).1
     = Ok {| messages := [Sample.m1; Sample.m2]; resultCursor := Some c2 |}
  /\ (query "T" Sample.anything Sample.byTimestamp
        (Some {| cursor := Some c2; limit := Some 2 |}) None w2).1
     = Ok {| messages := []; resultCursor := None |}.
Proof. repeat split; vm_compute; reflexivity. Qed.

(** C1, the part that fails: three records, of which the second and third
    match the filter, and a limit of one.  The first call reads a window of
    one record, which does not match, and returns an empty page with a
    cursor; it has sent one windowed query and one unlimited query. *)
Lemma filtered_page_is_underfilled :
  let rows := [Sample.r1; Sample.r2; Sample.r3] in
  let w := Sample.world rows true ∅ in
  let first := query "T" Sample.tasks Sample.byTimestamp (Sample.page 1) None w in
  matching Sample.tasks (tenantView rows "T" Sample.byTimestamp)
  = [Sample.r2; Sample.r3]
  /\ first.1 = Ok {| messages := [];
                     resultCursor := Some {| messageCid := "c1"; value := "c1" |} |}
  /\ sent first.2
     = [sentCommand (QueryCommand (sortedParams "T" Sample.byTimestamp (Some 1)));
        sentCommand (QueryCommand (sortedParams "T" Sample.byTimestamp None))].
Proof. repeat split; vm_compute; reflexivity. Qed.

(** ** What a query call does with the backend's answer *)

Section Query_outcome.
Context {E : Env}.

Lemma cursorInputSort_sorted tenant messageSort pagination (w : World E) :
  cursorInputSort tenant pagination
    (property (extractSortProperties messageSort))
    (direction (extractSortProperties messageSort)) w
  = match pagination ≫= cursor with
    | None => (Ok (sortedParams tenant messageSort (physicalLimit pagination)), w)
    | Some c =>
      match JSON_parse E (messageCid c) with
      | Some key =>
        (Ok (set_ExclusiveStartKey (Some key)
               (sortedParams tenant messageSort (physicalLimit pagination))), w)
      | None => (Throw SyntaxError, w)
      end
    end.
Proof.
  unfold cursorInputSort, sortedParams, physicalLimit.
  assert (Hp : String.eqb (property (extractSortProperties messageSort)) "" = false).
  { by destruct messageSort as [[[?|] [?|] [?|]]|]. }
  rewrite Hp. simpl.
  destruct (pagination ≫= cursor) as [c|];
    [destruct (JSON_parse E (messageCid c))|];
    destruct (pagination ≫= limit) as [[|n]|];
    destruct (direction (extractSortProperties messageSort)); reflexivity.
Qed.

(** One call of [query], for an arbitrary backend: two queries are sent,
    the first with the parameters of [cursorInputSort], the second
    without the limit; the items of the first answer are filtered and
    decoded; the cursor is the first answer's [LastEvaluatedKey]. *)
Lemma query_outcome tenant filters messageSort pagination options (w : World E)
    params data data2 b1 b2 items msgs :
  isAborted options = false ->
  cursorInputSort tenant pagination
    (property (extractSortProperties messageSort))
    (direction (extractSortProperties messageSort)) w = (Ok params, w) ->
  client_send E _ (QueryCommand params) (backend w) = (Ok data, b1) ->
  client_send E _ (QueryCommand (set_Limit None params)) b1 = (Ok data2, b2) ->
  Items data = Some items ->
  ScannedCount data = Some (length items) ->
  LastEvaluatedKey data ≠ Some ∅ ->
  ¬ filterFails filters items ->
  Forall2 (decodes E) (matching filters items) msgs ->
  query tenant filters messageSort pagination options w
  = (Ok {| messages := msgs; resultCursor := cursorOf E <$> LastEvaluatedKey data |},
     {| backend := b2;
        sent := sent w ++ [sentCommand (QueryCommand params);
                           sentCommand (QueryCommand (set_Limit None params))];
        heap := heap w |}).
Proof.
  intros Hab Hparams Hq1 Hq2 Hitems Hcount Hkey Hplain Hdec.
  unfold query, bind at 1. rewrite (throwIfAborted_ok _ _ Hab).
  unfold try_catch, bind at 1. simpl. rewrite Hparams.
  unfold bind at 1, send at 1. rewrite Hq1. simpl.
  unfold bind at 1, send at 1. simpl. rewrite Hq2. simpl.
  destruct data as [its cnt lek]. simpl in *. subst its cnt.
  unfold bind at 1. rewrite lastEvaluatedKeyCheck_keeps by done. simpl.
  unfold bind at 1. rewrite filteredItems_plain by done.
  rewrite (processPaginationResults_ok _ msgs) by done.
  by rewrite <- app_assoc.
Qed.
End Query_outcome.

(** ** The reference service's index views *)

Section String_order.

Lemma ascii_compare_refl (a : Ascii.ascii) : Ascii.compare a a = Eq.
Proof. unfold Ascii.compare. apply N.compare_refl. Qed.

Lemma ascii_compare_trans (a b c : Ascii.ascii) :
  Ascii.compare a b = Lt -> Ascii.compare b c = Lt -> Ascii.compare a c = Lt.
Proof.
  unfold Ascii.compare. rewrite !N.compare_lt_iff. apply N.lt_trans.
Qed.

Lemma string_compare_refl (s : string) : String.compare s s = Eq.
Proof. induction s as [|a s IH]; simpl; [done |]. by rewrite ascii_compare_refl. Qed.

Lemma string_compare_trans (s1 s2 s3 : string) :
  String.compare s1 s2 = Lt -> String.compare s2 s3 = Lt ->
  String.compare s1 s3 = Lt.
Proof.
  revert s2 s3. induction s1 as [|a1 s1 IH]; intros [|a2 s2] [|a3 s3]; simpl;
    try done.
  destruct (Ascii.compare a1 a2) eqn:H12; [| | done];
    destruct (Ascii.compare a2 a3) eqn:H23; try done.
  - apply Ascii.compare_eq_iff in H12, H23. subst.
    rewrite ascii_compare_refl. apply IH.
  - apply Ascii.compare_eq_iff in H12. subst. by rewrite H23.
  - apply Ascii.compare_eq_iff in H23. subst. by rewrite H12.
  - by rewrite (ascii_compare_trans _ _ _ H12 H23).
Qed.

Lemma string_leb_trans (s1 s2 s3 : string) :
  String.leb s1 s2 = true -> String.leb s2 s3 = true -> String.leb s1 s3 = true.
Proof.
  unfold String.leb.
  destruct (String.compare s1 s2) eqn:H12; [| | done];
    destruct (String.compare s2 s3) eqn:H23; try done; intros _ _.
  - apply String.compare_eq_iff in H12, H23. subst. by rewrite string_compare_refl.
  - apply String.compare_eq_iff in H12. subst. by rewrite H23.
  - apply String.compare_eq_iff in H23. subst. by rewrite H12.
  - by rewrite (string_compare_trans _ _ _ H12 H23).
Qed.
End String_order.

Section Index_views.
Import DynamoDB.

Lemma indexLe_total indexName : Total (indexLe indexName).
Proof.
  intros a b. unfold indexLe, indexLeb.
  rewrite (String.compare_antisym (default "" (sortValue indexName b))).
  destruct (String.compare (default "" (sortValue indexName a))
              (default "" (sortValue indexName b))); simpl; auto.
  apply String.leb_total.
Qed.

Lemma indexLe_trans indexName : Transitive (indexLe indexName).
Proof.
  intros a b c. unfold indexLe, indexLeb.
  destruct (String.compare (default "" (sortValue indexName a))
              (default "" (sortValue indexName b))) eqn:Hab; [| | done];
    destruct (String.compare (default "" (sortValue indexName b))
                (default "" (sortValue indexName c))) eqn:Hbc; try done.
  - apply String.compare_eq_iff in Hab, Hbc. rewrite Hab, Hbc, string_compare_refl.
    apply string_leb_trans.
  - apply String.compare_eq_iff in Hab. rewrite Hab, Hbc. done.
  - apply String.compare_eq_iff in Hbc. rewrite <- Hbc, Hab. done.
  - by rewrite (string_compare_trans _ _ _ Hab Hbc).
Qed.

(** Two items that stand at the same position of an index have the same
    sort value and the same [messageCid]. *)
Lemma indexLe_antisym indexName (a b : Item) :
  indexLe indexName a b -> indexLe indexName b a ->
  default "" (sortValue indexName a) = default "" (sortValue indexName b)
  /\ default "" (a !! "messageCid" ≫= attrS) = default "" (b !! "messageCid" ≫= attrS).
Proof.
  unfold indexLe, indexLeb.
  rewrite (String.compare_antisym (default "" (sortValue indexName b))
             (default "" (sortValue indexName a))).
  destruct (String.compare (default "" (sortValue indexName a))
              (default "" (sortValue indexName b))) eqn:Hab; simpl; try done.
  apply String.compare_eq_iff in Hab. intros H1 H2. split; [done |].
  by apply String.leb_antisym.
Qed.

Lemma scanOrder_total messageSort : Total (scanOrder messageSort).
Proof.
  intros a b. unfold scanOrder. destruct (SortDirection_eqb _ _);
    [apply indexLe_total | apply (indexLe_total _ b a)].
Qed.

Lemma scanOrder_trans messageSort : Transitive (scanOrder messageSort).
Proof.
  intros a b c. unfold scanOrder. destruct (SortDirection_eqb _ _).
  - apply indexLe_trans.
  - intros H1 H2. by eapply indexLe_trans.
Qed.

Lemma indexView_Permutation rows p :
  indexView rows p
  ≡ₚ List.filter (inIndex (ExpressionAttributeValues p !! ":tenant") (IndexName p)) rows.
Proof.
  unfold indexView. destruct (ScanIndexForward p).
  - apply merge_sort_Permutation.
  - rewrite reverse_Permutation. apply merge_sort_Permutation.
Qed.

(** A tenant's view of an index is in the scan order of the request. *)
Lemma tenantView_Sorted rows tenant messageSort :
  Sorted (scanOrder messageSort) (tenantView rows tenant messageSort).
Proof.
  unfold tenantView, indexView, scanOrder, sortIndex, sortedParams. simpl.
  destruct (SortDirection_eqb _ _).
  - apply (Sorted_merge_sort _ (Total0 := indexLe_total _)).
  - apply (Sorted_reverse (indexLe _)), (Sorted_merge_sort _ (Total0 := indexLe_total _)).
Qed.

Lemma tenantView_StronglySorted rows tenant messageSort :
  StronglySorted (scanOrder messageSort) (tenantView rows tenant messageSort).
Proof.
  apply (Sorted_StronglySorted _ (Transitive0 := scanOrder_trans _)),
    tenantView_Sorted.
Qed.

(** It holds the tenant's rows that carry the sort attribute, each once. *)
Lemma elem_of_tenantView rows tenant messageSort x :
  x ∈ tenantView rows tenant messageSort
  <-> x ∈ rows /\ x !! "tenant" = Some (AttrS tenant)
      /\ is_Some (sortValue (sortIndex messageSort) x).
Proof.
  unfold tenantView. rewrite indexView_Permutation.
  rewrite list_elem_of_In, filter_In, <- list_elem_of_In.
  unfold inIndex, sortedParams. simpl.
  rewrite andb_true_iff, !bool_decide_eq_true, lookup_singleton_eq.
  reflexivity.
Qed.

Lemma keyOf_lookup indexName (x : Item) k :
  k ∈ ["tenant"; "messageCid"; sortAttribute indexName] ->
  keyOf indexName x !! k = x !! k.
Proof.
  intros Hk. unfold keyOf. rewrite map_lookup_filter.
  destruct (x !! k) as [av|]; [| done]. simpl.
  by rewrite option_guard_True.
Qed.

Lemma keyOf_lookup_other indexName (x : Item) k :
  k ∉ ["tenant"; "messageCid"; sortAttribute indexName] ->
  keyOf indexName x !! k = None.
Proof.
  intros Hk. unfold keyOf. rewrite map_lookup_filter.
  destruct (x !! k) as [av|]; [| done]. simpl.
  by rewrite option_guard_False.
Qed.

Lemma keyOf_keyOf indexName (x : Item) :
  keyOf indexName (keyOf indexName x) = keyOf indexName x.
Proof.
  apply map_eq. intros k.
  destruct (decide (k ∈ ["tenant"; "messageCid"; sortAttribute indexName])).
  - by rewrite keyOf_lookup.
  - by rewrite !keyOf_lookup_other.
Qed.

Lemma sortValue_keyOf indexName (x : Item) :
  sortValue indexName (keyOf indexName x) = sortValue indexName x.
Proof.
  unfold sortValue. rewrite keyOf_lookup; [done |].
  rewrite !elem_of_cons. auto.
Qed.

Lemma primaryKey_keyOf indexName (x : Item) :
  primaryKey (keyOf indexName x) = primaryKey x.
Proof.
  unfold primaryKey. rewrite !keyOf_lookup; [done | |]; rewrite !elem_of_cons; auto.
Qed.

Lemma indexLeb_keyOf_l indexName (x y : Item) :
  indexLeb indexName (keyOf indexName x) y = indexLeb indexName x y.
Proof.
  unfold indexLeb. rewrite sortValue_keyOf, keyOf_lookup; [done |].
  rewrite !elem_of_cons. auto.
Qed.

Lemma indexLeb_keyOf_r indexName (x y : Item) :
  indexLeb indexName y (keyOf indexName x) = indexLeb indexName y x.
Proof.
  unfold indexLeb. rewrite sortValue_keyOf, keyOf_lookup; [done |].
  rewrite !elem_of_cons. auto.
Qed.

Lemma keyOf_nonempty indexName (x : Item) av :
  x !! "tenant" = Some av -> keyOf indexName x ≠ ∅.
Proof.
  intros Hx Hempty.
  pose proof (primaryKey_keyOf indexName x) as Hk. rewrite Hempty in Hk.
  unfold primaryKey in Hk. rewrite Hx, lookup_empty in Hk. discriminate.
Qed.

Lemma NoDup_filter_fmap {A B} (f : A -> B) (P : A -> bool) (l : list A) :
  NoDup (f <$> l) -> NoDup (f <$> List.filter P l).
Proof.
  induction l as [|a l IH]; simpl; [done |].
  rewrite NoDup_cons. intros [Hnotin Hnd]. destruct (P a); [| auto].
  simpl. apply NoDup_cons. split; [| auto].
  intros Hin. apply Hnotin. apply list_elem_of_fmap in Hin as (y & -> & Hy).
  apply list_elem_of_fmap. exists y. split; [done |].
  apply list_elem_of_In, filter_In in Hy. apply list_elem_of_In, Hy.
Qed.

(** Rows with distinct table keys have distinct keys in every view. *)
Lemma NoDup_primaryKey_tenantView rows tenant messageSort :
  NoDup (primaryKey <$> rows) ->
  NoDup (primaryKey <$> tenantView rows tenant messageSort).
Proof.
  intros Hnd. unfold tenantView. rewrite indexView_Permutation.
  by apply NoDup_filter_fmap.
Qed.

Lemma NoDup_tenantView rows tenant messageSort :
  NoDup (primaryKey <$> rows) -> NoDup (tenantView rows tenant messageSort).
Proof.
  intros Hnd. eapply NoDup_fmap_1, NoDup_primaryKey_tenantView, Hnd.
Qed.

(** [isAfter] is the strict side of the scan order. *)
Lemma isAfter_scanOrder messageSort (key item : Item) :
  isAfter (sortIndex messageSort)
    (SortDirection_eqb (direction (extractSortProperties messageSort)) Ascending)
    key item = true
  <-> ¬ scanOrder messageSort item key.
Proof.
  unfold isAfter, scanOrder, indexLe.
  destruct (SortDirection_eqb _ _); rewrite negb_true_iff, not_true_iff_false; done.
Qed.

Lemma scanOrder_keyOf_r messageSort (x y : Item) :
  scanOrder messageSort y (keyOf (sortIndex messageSort) x) <-> scanOrder messageSort y x.
Proof.
  unfold scanOrder, indexLe. destruct (SortDirection_eqb _ _);
    by rewrite ?indexLeb_keyOf_r, ?indexLeb_keyOf_l.
Qed.

(** Two rows of a tenant's view that carry the table's key and stand at
    the same position have the same table key. *)
Lemma scanOrder_antisym rows tenant messageSort (x y : Item) :
  x ∈ tenantView rows tenant messageSort ->
  y ∈ tenantView rows tenant messageSort ->
  keyed x -> keyed y ->
  scanOrder messageSort x y -> scanOrder messageSort y x ->
  primaryKey x = primaryKey y.
Proof.
  intros (_ & Hxt & _)%elem_of_tenantView (_ & Hyt & _)%elem_of_tenantView
    [_ [cx Hcx]] [_ [cy Hcy]] Hxy Hyx.
  assert (Hcid : default "" (x !! "messageCid" ≫= attrS)
                 = default "" (y !! "messageCid" ≫= attrS)).
  { unfold scanOrder in Hxy, Hyx. destruct (SortDirection_eqb _ _).
    - by destruct (indexLe_antisym _ _ _ Hxy Hyx).
    - by destruct (indexLe_antisym _ _ _ Hyx Hxy). }
  rewrite Hcx, Hcy in Hcid. simpl in Hcid. subst cy.
  unfold primaryKey. rewrite Hxt, Hyt. f_equal.
  destruct (x !! "messageCid") as [[]|], (y !! "messageCid") as [[]|];
    simpl in *; congruence.
Qed.

(** The items after the position of a stored row are the rows that follow
    it in the view. *)
Lemma afterKey_split rows tenant messageSort (before after : list Item) (x : Item) :
  NoDup (primaryKey <$> rows) ->
  Forall keyed rows ->
  tenantView rows tenant messageSort = before ++ x :: after ->
  afterKey (sortIndex messageSort)
    (SortDirection_eqb (direction (extractSortProperties messageSort)) Ascending)
    (keyOf (sortIndex messageSort) x) (before ++ x :: after)
  = after.
Proof.
  intros Hnd Hkeyed Hview.
  pose proof (tenantView_StronglySorted rows tenant messageSort) as Hsorted.
  pose proof (NoDup_primaryKey_tenantView rows tenant messageSort Hnd) as Hdistinct.
  assert (Hin : forall y, y ∈ before ++ x :: after ->
                  y ∈ tenantView rows tenant messageSort /\ keyed y).
  { intros y Hy. rewrite <- Hview in Hy. split; [done |].
    apply elem_of_tenantView in Hy as (Hy & _).
    rewrite Forall_forall in Hkeyed. auto. }
  rewrite Hview in Hsorted, Hdistinct.
  apply StronglySorted_app in Hsorted as (Hcross & _ & Htail).
  apply StronglySorted_inv in Htail as [_ Hafter].
  rewrite Forall_forall in Hafter.
  rewrite fmap_app, fmap_cons in Hdistinct.
  apply NoDup_app in Hdistinct as (_ & _ & Hdistinct).
  apply NoDup_cons in Hdistinct as [Hfresh _].
  unfold afterKey. rewrite List.filter_app. simpl.
  assert (Hrefl : scanOrder messageSort x x)
    by (destruct (scanOrder_total messageSort x x); done).
  assert (Hdrop : forall l, (forall y, y ∈ l -> scanOrder messageSort y x) ->
            List.filter (isAfter (sortIndex messageSort)
              (SortDirection_eqb (direction (extractSortProperties messageSort)) Ascending)
              (keyOf (sortIndex messageSort) x)) l = []).
  { induction l as [|y l IH]; intros Hl; simpl; [done |].
    destruct (isAfter _ _ _ y) eqn:Hy.
    - apply isAfter_scanOrder in Hy. exfalso. apply Hy, scanOrder_keyOf_r, Hl. by left.
    - apply IH. intros z Hz. apply Hl. by right. }
  rewrite Hdrop by (intros y Hy; apply Hcross; [done | by left]).
  destruct (isAfter _ _ _ x) eqn:Hx.
  { apply isAfter_scanOrder in Hx. exfalso. by apply Hx, scanOrder_keyOf_r. }
  simpl. clear Hdrop.
  assert (Hkeep : forall l, (forall y, y ∈ l -> ¬ scanOrder messageSort y x) ->
            List.filter (isAfter (sortIndex messageSort)
              (SortDirection_eqb (direction (extractSortProperties messageSort)) Ascending)
              (keyOf (sortIndex messageSort) x)) l = l).
  { induction l as [|y l IH]; intros Hl; simpl; [done |].
    destruct (isAfter _ _ _ y) eqn:Hy.
    - f_equal. apply IH. intros z Hz. apply Hl. by right.
    - exfalso. apply not_true_iff_false in Hy. apply Hy, isAfter_scanOrder.
      rewrite scanOrder_keyOf_r. apply Hl. by left. }
  apply Hkeep. intros y Hy Hyx. apply Hfresh.
  destruct (Hin x) as [Hxv Hxk]; [apply elem_of_app; right; by left |].
  destruct (Hin y) as [Hyv Hyk]; [apply elem_of_app; right; by right |].
  rewrite (scanOrder_antisym rows tenant messageSort x y Hxv Hyv Hxk Hyk
             (Hafter _ Hy) Hyx).
  apply list_elem_of_fmap. eauto.
Qed.

Lemma afterKey_elem_of indexName forward key (view : list Item) x :
  x ∈ afterKey indexName forward key view -> x ∈ view.
Proof.
  unfold afterKey. rewrite list_elem_of_In, filter_In, <- list_elem_of_In. tauto.
Qed.

Lemma afterKey_sublist indexName forward key (view : list Item) :
  afterKey indexName forward key view `sublist_of` view.
Proof.
  unfold afterKey. induction view as [|y view IH]; simpl; [done |].
  destruct (isAfter _ _ _ y); by constructor.
Qed.
End Index_views.
(** ** Paging through the reference service *)

Lemma decodable_decodes (E : Env) (l : list Item) :
  Forall (fun r => is_Some (decodeItem E r)) l ->
  exists msgs, Forall2 (decodes E) l msgs.
Proof.
  induction 1 as [|r l [m Hm] _ [msgs IH]].
  - by exists [].
  - exists (m :: msgs). by constructor.
Qed.

Lemma physicalLimit_positive pagination : physicalLimit pagination ≠ Some 0.
Proof. unfold physicalLimit. by destruct (pagination ≫= limit) as [[|n]|]. Qed.

(** What [cursorInputSort] returns when it returns: the parameters of the
    sort request, with the start key the cursor parsed to. *)
Lemma cursorInputSort_shape (E : Env) tenant messageSort pagination (w w' : World E)
    params :
  cursorInputSort tenant pagination
    (property (extractSortProperties messageSort))
    (direction (extractSortProperties messageSort)) w = (Ok params, w') ->
  w' = w
  /\ exists key,
       params = set_ExclusiveStartKey key
                  (sortedParams tenant messageSort (physicalLimit pagination)).
Proof.
  rewrite cursorInputSort_sorted.
  destruct (pagination ≫= cursor) as [c|]; [destruct (JSON_parse _ (messageCid c)) |];
    intros [= <- <-]; eauto.
Qed.

Section Responses.
Import DynamoDB.

Lemma take_min_length {A} k (l : list A) : take (k `min` length l) l = take k l.
Proof.
  destruct (decide (k ≤ length l)).
  - by rewrite Nat.min_l.
  - rewrite Nat.min_r by lia. by rewrite !take_ge by lia.
Qed.

Lemma responseOf_take (s : Service) limit (ahead : list Item) :
  responseOf s limit ahead = take (length (responseOf s limit ahead)) ahead.
Proof.
  unfold responseOf. destruct limit as [n|].
  - by rewrite take_take, length_take, take_min_length.
  - by rewrite length_take, take_min_length.
Qed.

Lemma responseOf_split (s : Service) limit (ahead : list Item) :
  ahead = responseOf s limit ahead ++ drop (length (responseOf s limit ahead)) ahead.
Proof.
  transitivity (take (length (responseOf s limit ahead)) ahead
                  ++ drop (length (responseOf s limit ahead)) ahead).
  - by rewrite take_drop.
  - f_equal. symmetry. apply responseOf_take.
Qed.

Lemma responseOf_length (s : Service) n (ahead : list Item) :
  length (responseOf s (Some n) ahead) ≤ n.
Proof. unfold responseOf. rewrite !length_take. lia. Qed.

Lemma responseOf_length_ahead (s : Service) limit (ahead : list Item) :
  length (responseOf s limit ahead) ≤ length ahead.
Proof. unfold responseOf. destruct limit; rewrite !length_take; lia. Qed.

Lemma responseOf_nonempty (s : Service) limit (ahead : list Item) :
  limit ≠ Some 0 -> ahead ≠ [] -> 0 < length (responseOf s limit ahead).
Proof.
  intros Hlimit Hahead. unfold responseOf.
  assert (0 < length ahead) by (destruct ahead; [done | simpl; lia]).
  destruct limit as [[|n]|]; [done | |]; rewrite !length_take; lia.
Qed.

Lemma responseOf_all (s : Service) (ahead : list Item) :
  length ahead ≤ capacity s ahead -> responseOf s None ahead = ahead.
Proof. intros Hfits. unfold responseOf. apply take_ge. lia. Qed.

Lemma responseOf_elem_of (s : Service) limit (ahead : list Item) x :
  x ∈ responseOf s limit ahead -> x ∈ ahead.
Proof.
  rewrite responseOf_take. intros (i & Hi & _)%elem_of_take.
  by eapply list_elem_of_lookup_2.
Qed.

Lemma startOf_elem_of p (view ahead : list Item) x :
  startOf p view = Ok ahead -> x ∈ ahead -> x ∈ view.
Proof.
  unfold startOf. destruct (ExclusiveStartKey p) as [[key|v]|].
  - destruct (validKey p key); [| done]. intros [= <-]. apply afterKey_elem_of.
  - by intros [= <-].
  - by intros [= <-].
Qed.

Lemma startOf_sublist p (view ahead : list Item) :
  startOf p view = Ok ahead -> ahead `sublist_of` view.
Proof.
  unfold startOf. destruct (ExclusiveStartKey p) as [[key|v]|].
  - destruct (validKey p key); [| done]. intros [= <-]. apply afterKey_sublist.
  - by intros [= <-].
  - by intros [= <-].
Qed.

(** The answer of the reference service to the query of a sort request. *)
Lemma runQuery_reference (s : Service) tenant messageSort key limit ahead :
  limit ≠ Some 0 ->
  startOf (set_ExclusiveStartKey key (sortedParams tenant messageSort limit))
    (tenantView (rows s) tenant messageSort) = Ok ahead ->
  runQuery s (set_ExclusiveStartKey key (sortedParams tenant messageSort limit))
  = Ok {| Items := Some (responseOf s limit ahead);
          ScannedCount := Some (length (responseOf s limit ahead));
          LastEvaluatedKey :=
            if decide (limit = Some (length (responseOf s limit ahead))
                       \/ length (responseOf s limit ahead) < length ahead)
            then keyOf (sortIndex messageSort) <$> last (responseOf s limit ahead)
            else None |}.
Proof.
  intros Hlimit Hstart. unfold runQuery.
  change (indexView (rows s)
            (set_ExclusiveStartKey key (sortedParams tenant messageSort limit)))
    with (tenantView (rows s) tenant messageSort).
  rewrite Hstart.
  change (Limit (set_ExclusiveStartKey key (sortedParams tenant messageSort limit)))
    with limit.
  by rewrite decide_False.
Qed.

End Responses.

Section Reference_pages.
Context (E : Env).
Import DynamoDB.

(** One call over the reference service: the window is what one response
    reads of the items ahead, the page is what the filter keeps of the
    window, and there is a cursor when the response stopped at the limit
    or before the end. *)
Lemma reference_query tenant filters messageSort pagination options
    (w : World (withDynamoDB E)) params ahead msgs :
  let sp := extractSortProperties messageSort in
  let window := responseOf (backend w) (physicalLimit pagination) ahead in
  isAborted options = false ->
  cursorInputSort tenant pagination (property sp) (direction sp) w = (Ok params, w) ->
  startOf params (tenantView (rows (backend w)) tenant messageSort) = Ok ahead ->
  ¬ filterFails filters window ->
  Forall2 (decodes E) (matching filters window) msgs ->
  query tenant filters messageSort pagination options w
  = (Ok {| messages := msgs;
           resultCursor :=
             cursorOf E <$>
               (if decide (physicalLimit pagination = Some (length window)
                           \/ length window < length ahead)
                then keyOf (sortIndex messageSort) <$> last window
                else None) |},
     {| backend := backend w;
        sent := sent w ++ [sentCommand (QueryCommand params);
                           sentCommand (QueryCommand (set_Limit None params))];
        heap := heap w |}).
Proof.
  intros sp window Hab Hparams Hstart Hplain Hdec.
  destruct (cursorInputSort_shape _ _ _ _ _ _ _ Hparams) as [_ [key ->]].
  pose proof (runQuery_reference (backend w) tenant messageSort key
                (physicalLimit pagination) ahead
                (physicalLimit_positive pagination) Hstart) as Hq1.
  pose proof (runQuery_reference (backend w) tenant messageSort key None ahead
                ltac:(done) Hstart) as Hq2.
  eapply (query_outcome (E := withDynamoDB E) tenant filters messageSort pagination
           options w _
           {| Items := Some window;
              ScannedCount := Some (length window);
              LastEvaluatedKey :=
                if decide (physicalLimit pagination = Some (length window)
                           \/ length window < length ahead)
                then keyOf (sortIndex messageSort) <$> last window
                else None |}
           _ (backend w) (backend w) window msgs Hab Hparams).
  - simpl. by rewrite Hq1.
  - simpl. change (runQuery (backend w) (set_Limit None ?p))
      with (runQuery (backend w)
              (set_ExclusiveStartKey key (sortedParams tenant messageSort None))).
    rewrite Hq2. reflexivity.
  - reflexivity.
  - reflexivity.
  - clear Hq1 Hq2. simpl. case_decide; [| done].
    destruct (last window) as [x|] eqn:Hlast; [| done]. simpl.
    intros Hempty. apply (inj Some) in Hempty. revert Hempty.
    apply last_Some_elem_of in Hlast.
    apply responseOf_elem_of in Hlast.
    apply (startOf_elem_of _ _ _ _ Hstart), elem_of_tenantView in Hlast
      as (_ & Htenant & _).
    by eapply keyOf_nonempty.
  - exact Hplain.
  - exact Hdec.
Qed.
End Reference_pages.
Section Pagination.
Import DynamoDB.
Context (E : Env) (table : list Item) (tenant : string) (filters : list Filter)
  (messageSort : option MessageSort) (n : nat)
  (options : option MessageStoreOptions).

Hypothesis not_aborted : isAborted options = false.
Hypothesis distinct_keys : NoDup (primaryKey <$> table).
Hypothesis keyed_rows : Forall keyed table.
Hypothesis keys_roundtrip :
  forall x, x ∈ tenantView table tenant messageSort ->
    JSON_parse E (JSON_stringify E (keyOf (sortIndex messageSort) x))
    = Some (JSONKey (keyOf (sortIndex messageSort) x)).
Hypothesis plain_rows :
  Forall (fun r : Item => r !! "hasOwnProperty" = None)
    (tenantView table tenant messageSort).
Hypothesis matches_decode :
  Forall (fun r => is_Some (decodeItem E r))
    (matching filters (tenantView table tenant messageSort)).

(** The key of a row of the view is a start key the service accepts. *)
Lemma validKey_keyOf key limit (x : Item) :
  x ∈ tenantView table tenant messageSort ->
  validKey (set_ExclusiveStartKey key (sortedParams tenant messageSort limit))
    (keyOf (sortIndex messageSort) x) = true.
Proof.
  intros Hx. pose proof Hx as (Hrow & Htenant & Hsort)%elem_of_tenantView.
  rewrite Forall_forall in keyed_rows. destruct (keyed_rows _ Hrow) as [_ Hcid].
  unfold validKey, inIndex. simpl.
  rewrite lookup_singleton_eq.
  rewrite !andb_true_iff, !bool_decide_eq_true.
  change (Some (property (extractSortProperties messageSort)))
    with (sortIndex messageSort).
  rewrite sortValue_keyOf, keyOf_keyOf, !keyOf_lookup
    by (rewrite !elem_of_cons; auto).
  done.
Qed.

(** Where the call that follows a cursor starts. *)
Lemma cursor_start c before rest (w : World (withDynamoDB E)) :
  tenantView table tenant messageSort = before ++ rest ->
  standsAfter E (sortIndex messageSort) c before ->
  exists params,
    cursorInputSort tenant (Some {| cursor := c; limit := Some (S n) |})
      (property (extractSortProperties messageSort))
      (direction (extractSortProperties messageSort)) w = (Ok params, w)
    /\ startOf params (tenantView table tenant messageSort) = Ok rest.
Proof.
  intros Hview Hc. rewrite cursorInputSort_sorted. simpl.
  destruct c as [cur|]; simpl in Hc.
  - destruct Hc as (before' & x & -> & ->). simpl.
    rewrite <- app_assoc in Hview. simpl in Hview.
    assert (Hx : x ∈ tenantView table tenant messageSort).
    { rewrite Hview. apply elem_of_app. right. by left. }
    change (JSON_parse (withDynamoDB E)) with (JSON_parse E).
    change (JSON_stringify (withDynamoDB E)) with (JSON_stringify E).
    rewrite keys_roundtrip by done.
    eexists. split; [reflexivity |].
    unfold startOf.
    change (ExclusiveStartKey (set_ExclusiveStartKey ?k ?p)) with k.
    cbv beta iota. rewrite validKey_keyOf by done.
    f_equal. rewrite Hview.
    by apply (afterKey_split table tenant).
  - subst before. eexists. split; [reflexivity |].
    unfold startOf. cbn [ExclusiveStartKey sortedParams]. by rewrite Hview.
Qed.

Lemma paginate_from fuel :
  forall before rest c (w : World (withDynamoDB E)),
    rows (backend w) = table ->
    tenantView table tenant messageSort = before ++ rest ->
    length rest < fuel ->
    standsAfter E (sortIndex messageSort) c before ->
    exists windows pages,
      paginate fuel tenant filters messageSort (S n) c options w = Some pages
      /\ concat windows = rest
      /\ Forall2 (fun window page =>
                    length window ≤ S n
                    /\ Forall2 (decodes E) (matching filters window) page)
           windows pages.
Proof.
  induction fuel as [|fuel IH]; intros before rest c w Hrows Hview Hfuel Hc; [lia |].
  destruct (cursor_start c before rest w Hview Hc) as (params & Hparams & Hstart).
  set (window := responseOf (backend w) (Some (S n)) rest).
  pose proof (responseOf_split (backend w) (Some (S n)) rest) as Hsplit.
  fold window in Hsplit.
  assert (Hsub : forall x, x ∈ window -> x ∈ tenantView table tenant messageSort).
  { intros x Hx. rewrite Hview, Hsplit, !elem_of_app. auto. }
  assert (Hplain : ¬ filterFails filters window).
  { apply filterFails_plain, Forall_forall. intros x Hx.
    rewrite Forall_forall in plain_rows. auto. }
  assert (Hdecw : exists msgs, Forall2 (decodes E) (matching filters window) msgs).
  { apply decodable_decodes, Forall_forall. intros x [Hx Hm]%elem_of_matching.
    rewrite Forall_forall in matches_decode. apply matches_decode.
    apply elem_of_matching. auto. }
  destruct Hdecw as [msgs Hmsgs].
  pose proof (responseOf_length (backend w) (S n) rest) as Hlen. fold window in Hlen.
  cbn [paginate].
  rewrite (reference_query E tenant filters messageSort
             (Some {| cursor := c; limit := Some (S n) |}) options w params rest msgs
             not_aborted Hparams);
    [| by rewrite Hrows | done | done].
  change (physicalLimit (Some {| cursor := c; limit := Some (S n) |}))
    with (Some (S n)).
  fold window. cbn [resultCursor messages].
  destruct (decide (Some (S n) = Some (length window) \/ length window < length rest))
    as [Hmore|Hlast].
  - assert (Hnonempty : 0 < length window).
    { destruct Hmore as [[= <-]|Hlt]; [lia |].
      apply responseOf_nonempty; [done |]. intros ->. simpl in Hlt. lia. }
    destruct (last window) as [x|] eqn:Hx.
    2:{ apply last_None in Hx. rewrite Hx in Hnonempty. simpl in Hnonempty. lia. }
    apply last_Some in Hx as [window' Hwindow]. cbn [fmap option_fmap option_map].
    match goal with |- context [paginate fuel _ _ _ _ _ _ ?w'] =>
      destruct (IH (before ++ window) (drop (length window) rest)
                  (Some (cursorOf E (keyOf (sortIndex messageSort) x))) w')
        as (windows & pages & Hpages & Hconcat & Hall)
    end.
    + exact Hrows.
    + by rewrite <- app_assoc, <- Hsplit.
    + rewrite length_drop.
      pose proof (responseOf_length_ahead (backend w) (Some (S n)) rest) as Hle.
      fold window in Hle. lia.
    + exists (before ++ window'), x. by rewrite Hwindow, app_assoc.
    + change (cursorOf (withDynamoDB E)) with (cursorOf E). rewrite Hpages.
      exists (window :: windows), (msgs :: pages).
      split; [done |]. split; [| by constructor].
      simpl. by rewrite Hconcat, <- Hsplit.
  - exists [window], [msgs].
    split; [done |]. split; [| constructor; [by split | constructor]].
    simpl. rewrite app_nil_r.
    assert (Hend : drop (length window) rest = []).
    { apply drop_ge. destruct (decide (length rest ≤ length window)); [done |].
      exfalso. apply Hlast. right. lia. }
    rewrite Hend, app_nil_r in Hsplit. done.
Qed.
End Pagination.

Lemma matching_concat filters (windows : list (list Item)) :
  matching filters (concat windows) = concat (matching filters <$> windows).
Proof.
  induction windows as [|window windows IH]; simpl; [done |].
  by rewrite matching_app, IH.
Qed.

Lemma pages_decode (E : Env) filters (windows : list (list Item))
    (pages : list (list GenericMessage)) (L : nat) :
  Forall2 (fun window page =>
             length window ≤ L /\ Forall2 (decodes E) (matching filters window) page)
    windows pages ->
  Forall2 (decodes E) (matching filters (concat windows)) (concat pages)
  /\ Forall (fun page => length page ≤ L) pages.
Proof.
  rewrite matching_concat.
  induction 1 as [|window page windows pages [Hlen Hdec] _ [IHdec IHlen]]; simpl.
  - split; constructor.
  - split; [by apply Forall2_app |]. constructor; [| done].
    rewrite <- (Forall2_length _ _ _ Hdec).
    etrans; [apply matching_length | done].
Qed.

(** C1, as the code has it.  Over the reference service, with a table
    whose rows carry the table's key, distinct from row to row, have no
    attribute named [hasOwnProperty] and decode where they match, a caller
    that pages with a positive limit [L] comes to an end.  The view of the
    selected index holds the rows of the tenant that carry the sort
    attribute as a string, each once, in scan order.  The calls read it
    window by window: the windows, concatenated, are the view, no window is
    longer than [L], and the page of a call is the decoding of what the
    filter keeps of its window.  So the pages, concatenated, are the
    decoded matching rows of the view in scan order, each once, no page is
    longer than [L], and a page can be shorter than [L], even empty, before
    the end. *)
Theorem pagination_returns_every_match (E : Env) (table : list Item) tenant filters
    messageSort (L : nat) options (w : World (withDynamoDB E)) :
  let view := tenantView table tenant messageSort in
  let sortProperty := property (extractSortProperties messageSort) in
  0 < L ->
  isAborted options = false ->
  DynamoDB.rows (backend w) = table ->
  NoDup (DynamoDB.primaryKey <$> table) ->
  Forall keyed table ->
  Forall (fun x =>
            JSON_parse E (JSON_stringify E (DynamoDB.keyOf (sortIndex messageSort) x))
            = Some (JSONKey (DynamoDB.keyOf (sortIndex messageSort) x))) view ->
  Forall (fun r : Item => r !! "hasOwnProperty" = None) view ->
  Forall (fun r => is_Some (decodeItem E r)) (matching filters view) ->
  (forall x, x ∈ view
             <-> x ∈ table /\ x !! "tenant" = Some (AttrS tenant)
                 /\ is_Some (x !! sortProperty ≫= attrS))
  /\ NoDup view
  /\ Sorted (scanOrder messageSort) view
  /\ exists windows pages,
       paginate (S (length view)) tenant filters messageSort L None options w
       = Some pages
       /\ concat windows = view
       /\ Forall2 (fun window page =>
                     length window ≤ L
                     /\ Forall2 (decodes E) (matching filters window) page)
            windows pages
       /\ Forall2 (decodes E) (matching filters view) (concat pages)
       /\ Forall (fun page => length page ≤ L) pages.
Proof.
  intros view sortProperty HL Hab Hrows Hnd Hkeyed Hjson Hplain Hdec.
  destruct L as [|n]; [lia |].
  rewrite Forall_forall in Hjson.
  split; [apply elem_of_tenantView |].
  split; [by apply NoDup_tenantView |].
  split; [apply tenantView_Sorted |].
  destruct (paginate_from E table tenant filters messageSort n options
              Hab Hnd Hkeyed Hjson Hplain Hdec (S (length view)) [] view None w)
    as (windows & pages & Hpages & Hconcat & Hall);
    [done | done | lia | done |].
  exists windows, pages. split; [done |]. split; [done |]. split; [done |].
  rewrite <- Hconcat. by eapply pages_decode.
Qed.

Lemma pagination_returns_every_match_witness :
  let table := [Sample.r3; Sample.r1; Sample.r2] in
  let w := Sample.world table true ∅ in
  let view := tenantView table "T" Sample.byTimestamp in
  view = [Sample.r1; Sample.r2; Sample.r3]
  /\ exists windows pages,
       paginate 4 "T" Sample.tasks Sample.byTimestamp 2 None None w = Some pages
       /\ concat windows = view
       /\ Forall2 (fun window page =>
                     length window ≤ 2
                     /\ Forall2 (decodes Sample.env) (matching Sample.tasks window) page)
            windows pages
       /\ Forall2 (decodes Sample.env) (matching Sample.tasks view) (concat pages)
       /\ Forall (fun p => length p ≤ 2) pages.
Proof.
  split; [vm_compute; reflexivity |].
  apply (pagination_returns_every_match Sample.env
           [Sample.r3; Sample.r1; Sample.r2] "T" Sample.tasks
           Sample.byTimestamp 2 None
           (Sample.world [Sample.r3; Sample.r1; Sample.r2] true ∅)).
  - lia.
  - reflexivity.
  - reflexivity.
  - apply (bool_decide_unpack _). vm_compute. exact I.
  - apply (bool_decide_unpack _). vm_compute. exact I.
  - replace (tenantView [Sample.r3; Sample.r1; Sample.r2] "T" Sample.byTimestamp)
      with [Sample.r1; Sample.r2; Sample.r3] by (vm_compute; reflexivity).
    repeat constructor; vm_compute; reflexivity.
  - apply (bool_decide_unpack _). vm_compute. exact I.
  - apply (bool_decide_unpack _). vm_compute. exact I.
Defined.

(** The pages of the witness: the first window holds one match, the second
    the other. *)
Example pagination_pages :
  paginate 4 "T" Sample.tasks Sample.byTimestamp 2 None None
    (Sample.world [Sample.r3; Sample.r1; Sample.r2] true ∅)
  = Some [[Sample.m2]; [Sample.m3]].
Proof. vm_compute. reflexivity. Qed.
(** * Further properties of the message store *)

(** ** Failures and edge cases of single calls *)

(** X1.  [delete] has no [try]: when the backend rejects the deletion, the
    call fails with the backend's error, after that one command. *)
Theorem delete_surfaces_failure (E : Env) tenant cid options (w : World E) e b :
  let command :=
    DeleteItemCommand {| delete_TableName := tableName;
                         delete_Key := marshallKey tenant cid |} in
  isAborted options = false ->
  client_send E _ command (backend w) = (Throw e, b) ->
  delete tenant cid options w
  = (Throw e,
     {| backend := b; sent := sent w ++ [sentCommand command]; heap := heap w |}).
Proof.
  intros command Hab Hsend. unfold delete, bind.
  rewrite (throwIfAborted_ok _ _ Hab). unfold send. fold command. by rewrite Hsend.
Qed.

Lemma delete_surfaces_failure_witness :
  (delete "T" "c1" None (Sample.world [Sample.r1] false ∅)).1
  = Throw (BackendError "ServiceUnavailable").
Proof.
  rewrite (delete_surfaces_failure Sample.env "T" "c1" None
             (Sample.world [Sample.r1] false ∅)
             (BackendError "ServiceUnavailable")
             {| DynamoDB.rows := [Sample.r1]; DynamoDB.available := false;
                DynamoDB.capacity := length |});
    reflexivity.
Defined.

(** X2.  [get] checks the signal inside its [try]: with a signal that is
    already aborted it returns [undefined] and sends nothing. *)
Theorem get_aborted_is_undefined (E : Env) tenant cid options (w : World E) :
  isAborted options = true ->
  get tenant cid options w = (Ok None, w).
Proof.
  intros Hab. destruct (throwIfAborted_aborted (E := E) options Hab) as [reason Hthrow].
  unfold get, try_catch, bind. by rewrite Hthrow.
Qed.

Lemma get_aborted_is_undefined_witness :
  get "T" "c1" Sample.aborting (Sample.world [Sample.r1] true ∅)
  = (Ok None, Sample.world [Sample.r1] true ∅).
Proof.
  apply (get_aborted_is_undefined Sample.env "T" "c1" Sample.aborting). reflexivity.
Defined.

(** X3.  A cursor whose [messageCid] is not JSON makes [query] fail with
    the syntax error of [JSON.parse], before any command is sent. *)
Theorem query_rejects_unparsable_cursor (E : Env) tenant filters messageSort
    pagination options (w : World E) c :
  isAborted options = false ->
  pagination ≫= cursor = Some c ->
  JSON_parse E (messageCid c) = None ->
  query tenant filters messageSort pagination options w = (Throw SyntaxError, w).
Proof.
  intros Hab Hc Hparse. unfold query, bind at 1.
  rewrite (throwIfAborted_ok _ _ Hab). unfold try_catch, bind at 1.
  rewrite cursorInputSort_sorted, Hc, Hparse. reflexivity.
Qed.

Lemma query_rejects_unparsable_cursor_witness :
  query "T" Sample.anything Sample.byTimestamp
    (Some {| cursor := Some {| messageCid := "no such key"; value := "" |};
             limit := Some 2 |})
    None (Sample.world [Sample.r1] true ∅)
  = (Throw SyntaxError, Sample.world [Sample.r1] true ∅).
Proof.
  apply (query_rejects_unparsable_cursor Sample.env "T" Sample.anything
           Sample.byTimestamp _ None _
           {| messageCid := "no such key"; value := "" |});
    reflexivity.
Defined.

(** X4.  The answer of the second, unlimited query is never read, yet the
    call waits for it: when the backend answers the first query and rejects
    the second, [query] fails with that error. *)
Theorem query_fails_with_unused_query (E : Env) tenant filters messageSort
    pagination options (w : World E) params data b1 e b2 :
  isAborted options = false ->
  cursorInputSort tenant pagination
    (property (extractSortProperties messageSort))
    (direction (extractSortProperties messageSort)) w = (Ok params, w) ->
  client_send E _ (QueryCommand params) (backend w) = (Ok data, b1) ->
  client_send E _ (QueryCommand (set_Limit None params)) b1 = (Throw e, b2) ->
  query tenant filters messageSort pagination options w
  = (Throw e,
     {| backend := b2;
        sent := sent w ++ [sentCommand (QueryCommand params);
                           sentCommand (QueryCommand (set_Limit None params))];
        heap := heap w |}).
Proof.
  intros Hab Hparams Hq1 Hq2.
  unfold query, bind at 1. rewrite (throwIfAborted_ok _ _ Hab).
  unfold try_catch, bind at 1. simpl. rewrite Hparams.
  unfold bind at 1, send at 1. rewrite Hq1. simpl.
  unfold bind at 1, send at 1. simpl. rewrite Hq2. simpl.
  by rewrite <- app_assoc.
Qed.

Lemma query_fails_with_unused_query_witness :
  (query "T" Sample.anything Sample.byTimestamp (Sample.page 2) None
     (Throttled.world 1 [Sample.r1])).1
  = Throw (BackendError "ThrottlingException").
Proof.
  erewrite (query_fails_with_unused_query Throttled.env "T" Sample.anything
              Sample.byTimestamp (Sample.page 2) None (Throttled.world 1 [Sample.r1])
              (sortedParams "T" Sample.byTimestamp (Some 2)));
    reflexivity.
Defined.




(** ** What a returned page holds *)

Lemma traverse_parseArguments_returns (E : Env) (results : list Item)
    (w w' : World E) args :
  traverse parseArguments results w = (Ok args, w') ->
  w' = w
  /\ args = (fun r => (default [] (r !! "encodedMessageBytes" ≫= attrB),
                       r !! "encodedData" ≫= attrS)) <$> results
  /\ Forall (fun r => is_Some (r !! "encodedMessageBytes")) results.
Proof.
  revert args w'. induction results as [|r results IH]; intros args w'; simpl.
  - unfold ret. intros [= <- <-]. by repeat split.
  - unfold bind at 1, parseArguments at 1.
    destruct (r !! "encodedMessageBytes") as [av|] eqn:Hav; [| done].
    unfold ret at 1, bind.
    destruct (traverse parseArguments results w) as [[args'|e] w1] eqn:Hrest; [| done].
    destruct (IH args' w1 eq_refl) as (-> & -> & Hall).
    unfold ret. intros [= <- <-].
    split; [done |]. split; [| constructor; eauto].
    reflexivity.
Qed.

Lemma traverse_parseEncodedMessage_returns (E : Env) (results : list Item) options
    (w w' : World E) msgs :
  Forall (fun r => is_Some (r !! "encodedMessageBytes")) results ->
  traverse (fun '(b, d) => parseEncodedMessage b d options)
    ((fun r => (default [] (r !! "encodedMessageBytes" ≫= attrB),
                r !! "encodedData" ≫= attrS)) <$> results) w
  = (Ok msgs, w') ->
  Forall2 (decodes E) results msgs.
Proof.
  intros Hbytes. revert w w' msgs.
  induction Hbytes as [|r results [av Hav] _ IH]; intros w w' msgs; simpl.
  - unfold ret. intros [= <- _]. constructor.
  - unfold bind at 1. rewrite Hav. simpl.
    destruct (isAborted options) eqn:Hab.
    { destruct (throwIfAborted_aborted (E := E) options Hab) as [reason Hthrow].
      unfold parseEncodedMessage, bind. by rewrite Hthrow. }
    rewrite (parseEncodedMessage_decodeItem E r av options w Hab Hav).
    destruct (decodeItem E r) as [m|] eqn:Hr; [| done].
    unfold bind.
    match goal with |- context [traverse ?f ?l w] =>
      destruct (traverse f l w) as [[msgs'|e] w1] eqn:Hrest end; [| done].
    unfold ret. intros [= <- <-]. constructor; [done |]. by eapply IH.
Qed.

Lemma processPaginationResults_returns (E : Env) results sortProperty lastEvaluatedKey
    limit options (w w' : World E) r :
  processPaginationResults results sortProperty lastEvaluatedKey limit options w
  = (Ok r, w') ->
  resultCursor r = cursorOf E <$> lastEvaluatedKey
  /\ Forall2 (decodes E) results (messages r).
Proof.
  unfold processPaginationResults, bind.
  destruct (traverse parseArguments results w) as [[args|e] w1] eqn:Hargs; [| done].
  apply traverse_parseArguments_returns in Hargs as (-> & -> & Hbytes).
  match goal with |- context [traverse ?f ?l w] =>
    destruct (traverse f l w) as [[msgs|e] w2] eqn:Hmsgs end; [| done].
  unfold ret. intros [= <- _]. simpl. split; [by destruct lastEvaluatedKey |].
  by eapply traverse_parseEncodedMessage_returns.
Qed.

(** What a call that returns has returned, for an arbitrary backend. *)
Lemma query_returns (E : Env) tenant filters messageSort pagination
    options (w w' : World E) params data b1 items r :
  cursorInputSort tenant pagination
    (property (extractSortProperties messageSort))
    (direction (extractSortProperties messageSort)) w = (Ok params, w) ->
  client_send E _ (QueryCommand params) (backend w) = (Ok data, b1) ->
  Items data = Some items ->
  query tenant filters messageSort pagination options w = (Ok r, w') ->
  resultCursor r
  = match LastEvaluatedKey data, ScannedCount data with
    | Some key, Some (S _) =>
      if decide (key = ∅) then None else Some (cursorOf E key)
    | key, _ => cursorOf E <$> key
    end
  /\ ¬ filterFails filters items
  /\ Forall2 (decodes E) (matching filters items) (messages r).
Proof.
  intros Hparams Hq1 Hitems. unfold query, bind at 1.
  destruct (throwIfAborted options w) as [[[]|e] w0] eqn:Hab; [| done].
  assert (w0 = w) as ->.
  { unfold throwIfAborted in Hab. destruct (options ≫= signal) as [s|];
      [destruct (aborted s) |]; by inversion Hab. }
  unfold try_catch, bind at 1. simpl. rewrite Hparams.
  unfold bind at 1, send at 1. rewrite Hq1. simpl.
  unfold bind at 1, send at 1. simpl.
  destruct (client_send E _ (QueryCommand (set_Limit None params)) b1)
    as [[data2|e] b2]; [| done]. simpl.
  unfold bind at 1. rewrite lastEvaluatedKeyCheck_run, Hitems.
  destruct data as [its count key]. simpl in Hitems. subst its. simpl.
  assert (Hpage : forall key' (w1 : World E),
    match
      (filteredItems <- filteredItems filters items ;;
       processPaginationResults filteredItems
         (property (extractSortProperties messageSort)) key'
         (pagination ≫= limit) options) w1
    with
    | (Ok a, w2) => (Ok a, w2)
    | (Throw e, w2) => throw e w2
    end = (Ok r, w') ->
    resultCursor r = cursorOf E <$> key'
    /\ ¬ filterFails filters items
    /\ Forall2 (decodes E) (matching filters items) (messages r)).
  { intros key' w1. unfold bind at 1. rewrite filteredItems_run.
    destruct (decide (filterFails filters items)) as [Hfails|Hplain]; [done |].
    destruct (processPaginationResults _ _ _ _ _ _) as [[r'|e] w2] eqn:Hres; [| done].
    intros [= <- _].
    destruct (processPaginationResults_returns _ _ _ _ _ _ _ _ _ Hres). auto. }
  destruct count as [[|n]|], key as [key|]; simpl; try apply Hpage.
  destruct (decide (key = ∅)) as [->|Hkey].
  - apply Hpage.
  - destruct (items !! n); [apply Hpage | done].
Qed.



(** The corners of the check on the key, on answers that only a backend
    other than the service gives: a key without attributes makes a cursor
    when nothing was scanned and is dropped otherwise, and an answer with
    fewer items than its [ScannedCount] makes the call throw. *)
Example key_check_corners :
  let run answer :=
    (query "T" Sample.anything Sample.byTimestamp None None
       (Scripted.world [answer; answer])).1 in
  run {| Items := Some []; ScannedCount := Some 0; LastEvaluatedKey := Some ∅ |}
  = Ok {| messages := []; resultCursor := Some {| messageCid := ""; value := "" |} |}
  /\ run {| Items := Some [Sample.r1]; ScannedCount := Some 1;
            LastEvaluatedKey := Some ∅ |}
     = Ok {| messages := [Sample.m1]; resultCursor := None |}
  /\ run {| Items := Some [Sample.r1]; ScannedCount := Some 2;
            LastEvaluatedKey := Some (DynamoDB.keyOf (Some "messageTimestamp") Sample.r1) |}
     = Throw TypeError.
Proof. repeat split; vm_compute; reflexivity. Qed.

(** A call that returns has got parameters from [cursorInputSort] and an
    answer to its first query. *)
Lemma query_inversion (E : Env) tenant filters messageSort pagination options
    (w w' : World E) r :
  query tenant filters messageSort pagination options w = (Ok r, w') ->
  exists params data b1,
    cursorInputSort tenant pagination
      (property (extractSortProperties messageSort))
      (direction (extractSortProperties messageSort)) w = (Ok params, w)
    /\ client_send E _ (QueryCommand params) (backend w) = (Ok data, b1)
    /\ (Items data = None -> messages r = []).
Proof.
  unfold query, bind at 1.
  destruct (throwIfAborted options w) as [[[]|e] w0] eqn:Hab; [| done].
  assert (w0 = w) as ->.
  { unfold throwIfAborted in Hab. destruct (options ≫= signal) as [s|];
      [destruct (aborted s) |]; by inversion Hab. }
  unfold try_catch, bind at 1. simpl.
  destruct (cursorInputSort tenant pagination _ _ w) as [[params|e] w0] eqn:Hparams;
    [| done].
  destruct (cursorInputSort_shape _ _ _ _ _ _ _ Hparams) as [-> _].
  unfold bind at 1, send at 1.
  destruct (client_send E _ (QueryCommand params) (backend w)) as [[data|e] b1] eqn:Hq1;
    [| done].
  simpl. intros Hquery. exists params, data, b1. split; [done |]. split; [done |].
  intros Hnone. revert Hquery.
  unfold bind at 1, send at 1. simpl.
  destruct (client_send E _ (QueryCommand (set_Limit None params)) b1)
    as [[data2|e] b2]; [| done]. simpl.
  unfold bind at 1. rewrite lastEvaluatedKeyCheck_run, Hnone.
  destruct (ScannedCount data) as [[|n]|]; simpl; rewrite ?Hnone;
    unfold ret; by intros [= <- _].
Qed.

(** What the reference service answers to the query of a sort request:
    items of the tenant's view of the index, in the order of the view. *)
Lemma reference_first_answer (E : Env) tenant messageSort pagination
    (w : World (withDynamoDB E)) params data b1 :
  cursorInputSort tenant pagination
    (property (extractSortProperties messageSort))
    (direction (extractSortProperties messageSort)) w = (Ok params, w) ->
  client_send (withDynamoDB E) _ (QueryCommand params) (backend w) = (Ok data, b1) ->
  exists items,
    Items data = Some items
    /\ items `sublist_of` tenantView (DynamoDB.rows (backend w)) tenant messageSort.
Proof.
  intros Hparams. destruct (cursorInputSort_shape _ _ _ _ _ _ _ Hparams) as [_ [key ->]].
  simpl. unfold DynamoDB.runQuery.
  rewrite decide_False by apply physicalLimit_positive.
  change (DynamoDB.indexView (DynamoDB.rows (backend w))
            (set_ExclusiveStartKey key
               (sortedParams tenant messageSort (physicalLimit pagination))))
    with (tenantView (DynamoDB.rows (backend w)) tenant messageSort).
  destruct (DynamoDB.startOf _ _) as [ahead|e] eqn:Hstart; [| done].
  intros [= <- _]. eexists. split; [reflexivity |].
  etrans; [| by eapply startOf_sublist].
  rewrite responseOf_take. apply sublist_take.
Qed.

(** A call over the reference service that returns has returned the
    decoding of what the filter kept of items of the tenant's view, in the
    order of the view. *)
Lemma reference_query_returns (E : Env) tenant filters messageSort pagination options
    (w w' : World (withDynamoDB E)) r :
  query tenant filters messageSort pagination options w = (Ok r, w') ->
  exists items,
    items `sublist_of` tenantView (DynamoDB.rows (backend w)) tenant messageSort
    /\ Forall2 (decodes E) (matching filters items) (messages r).
Proof.
  intros Hquery.
  destruct (query_inversion _ _ _ _ _ _ _ _ _ Hquery)
    as (params & data & b1 & Hparams & Hsend & Hnone).
  destruct (reference_first_answer E tenant messageSort pagination w params data b1
              Hparams Hsend) as (items & Hitems & Hview).
  exists items. split; [done |].
  by destruct (query_returns (withDynamoDB E) tenant filters messageSort pagination
                 options w w' params data b1 items r Hparams Hsend Hitems Hquery)
    as (_ & _ & ?).
Qed.

(** X7.  Over the reference service a call of [query] that returns has
    returned nothing of another tenant and nothing that fails the filter:
    its messages are the decoding of rows of the table that carry the
    tenant of the call and pass the filter. *)
Theorem query_is_tenant_scoped (E : Env) tenant filters messageSort pagination options
    (w w' : World (withDynamoDB E)) r :
  query tenant filters messageSort pagination options w = (Ok r, w') ->
  exists rows,
    Forall2 (decodes E) rows (messages r)
    /\ Forall (fun x => x ∈ DynamoDB.rows (backend w)
                        /\ x !! "tenant" = Some (AttrS tenant)
                        /\ Exists (clauseMatches x) filters) rows.
Proof.
  intros Hquery.
  destruct (reference_query_returns E tenant filters messageSort pagination options
              w w' r Hquery) as (items & Hview & Hdec).
  exists (matching filters items). split; [exact Hdec |].
  apply Forall_forall. intros x [Hin Hpass]%elem_of_matching.
  eapply elem_of_sublist in Hin; [| exact Hview].
  apply elem_of_tenantView in Hin as (Hrow & Ht & _).
  done.
Qed.

Lemma query_is_tenant_scoped_witness :
  let other : Item := <[ "tenant" := AttrS "U" ]> Sample.r3 in
  let w := Sample.world [Sample.r1; other; Sample.r2] true ∅ in
  (query "T" Sample.anything Sample.byTimestamp None None w).1
  = Ok {| messages := [Sample.m1; Sample.m2]; resultCursor := None |}
  /\ exists rows,
       Forall2 (decodes Sample.env) rows [Sample.m1; Sample.m2]
       /\ Forall (fun x => x ∈ DynamoDB.rows (backend w)
                           /\ x !! "tenant" = Some (AttrS "T")
                           /\ Exists (clauseMatches x) Sample.anything) rows.
Proof.
  intros other w.
  assert (Hrun : (query "T" Sample.anything Sample.byTimestamp None None w).1
                 = Ok {| messages := [Sample.m1; Sample.m2]; resultCursor := None |})
    by (vm_compute; reflexivity).
  split; [exact Hrun |].
  apply (query_is_tenant_scoped Sample.env "T" Sample.anything Sample.byTimestamp
           None None w (query "T" Sample.anything Sample.byTimestamp None None w).2
           {| messages := [Sample.m1; Sample.m2]; resultCursor := None |}).
  rewrite <- Hrun. apply surjective_pairing.
Defined.

(** X8.  The [value] of a cursor is never read: two cursors with the same
    [messageCid] give the same call. *)
Theorem cursor_value_is_ignored (E : Env) tenant filters messageSort limit options
    (w : World E) (cid v1 v2 : string) :
  query tenant filters messageSort
    (Some {| cursor := Some {| messageCid := cid; value := v1 |}; limit := limit |})
    options w
  = query tenant filters messageSort
      (Some {| cursor := Some {| messageCid := cid; value := v2 |}; limit := limit |})
      options w.
Proof.
  unfold query, bind, try_catch.
  destruct (throwIfAborted options w) as [[[]|e] w0]; [| reflexivity].
  rewrite !cursorInputSort_sorted. reflexivity.
Qed.

(** ** What reading never does *)

Section Reads.
Context {E : Env}.

Lemma readsOnly_ret {A} (a : A) : readsOnly E (ret a).
Proof. intros w. split; [done |]. exists []. by rewrite app_nil_r. Qed.

Lemma readsOnly_throw {A} e : readsOnly E (throw e : M E A).
Proof. intros w. split; [done |]. exists []. by rewrite app_nil_r. Qed.

Lemma readsOnly_send {R} (c : Command R) :
  isRead (sentCommand c) -> readsOnly E (send c).
Proof.
  intros Hc w. unfold send. destruct (client_send E R c (backend w)) as [r b]. simpl.
  split; [done |]. exists [sentCommand c]. split; [done |]. by constructor.
Qed.

Lemma readsOnly_bind {A B} (m : M E A) (k : A -> M E B) :
  readsOnly E m -> (forall a, readsOnly E (k a)) -> readsOnly E (bind m k).
Proof.
  intros Hm Hk w. unfold bind. destruct (Hm w) as (Hh & l & Hl & Hr).
  destruct (m w) as [[a|e] w1]; simpl in *.
  - destruct (Hk a w1) as (Hh' & l' & Hl' & Hr'). split; [congruence |].
    exists (l ++ l'). rewrite Hl', Hl, app_assoc. split; [done |].
    by apply Forall_app.
  - split; [done |]. by exists l.
Qed.

Lemma readsOnly_try_catch {A} (m : M E A) (h : Exn -> M E A) :
  readsOnly E m -> (forall e, readsOnly E (h e)) -> readsOnly E (try_catch m h).
Proof.
  intros Hm Hh w. unfold try_catch. destruct (Hm w) as (Hheap & l & Hl & Hr).
  destruct (m w) as [[a|e] w1]; simpl in *.
  - split; [done |]. by exists l.
  - destruct (Hh e w1) as (Hheap' & l' & Hl' & Hr'). split; [congruence |].
    exists (l ++ l'). rewrite Hl', Hl, app_assoc. split; [done |].
    by apply Forall_app.
Qed.

Lemma readsOnly_traverse {A B} (f : A -> M E B) (l : list A) :
  (forall a, readsOnly E (f a)) -> readsOnly E (traverse f l).
Proof.
  intros Hf. induction l as [|a l IH]; simpl.
  - apply readsOnly_ret.
  - apply readsOnly_bind; [apply Hf |]. intros b.
    apply readsOnly_bind; [apply IH |]. intros bs. apply readsOnly_ret.
Qed.

Lemma readsOnly_foldlM {A B} (f : B -> A -> M E B) (l : list A) (b : B) :
  (forall b a, readsOnly E (f b a)) -> readsOnly E (foldlM f b l).
Proof.
  intros Hf. revert b. induction l as [|a l IH]; intros b; simpl.
  - apply readsOnly_ret.
  - apply readsOnly_bind; [apply Hf | apply IH].
Qed.

Lemma readsOnly_throwIfAborted options : readsOnly E (throwIfAborted options).
Proof.
  unfold throwIfAborted. destruct (options ≫= signal) as [s|];
    [destruct (aborted s) |]; auto using readsOnly_ret, readsOnly_throw.
Qed.

Lemma readsOnly_parseEncodedMessage b d options :
  readsOnly E (parseEncodedMessage b d options).
Proof.
  unfold parseEncodedMessage.
  apply readsOnly_bind; [apply readsOnly_throwIfAborted |]. intros _.
  destruct (block_decode E b); [destruct d |];
    auto using readsOnly_ret, readsOnly_throw.
Qed.

Lemma readsOnly_cursorInputSort tenant pagination sortAttribute sortDirection :
  readsOnly E (cursorInputSort tenant pagination sortAttribute sortDirection).
Proof.
  unfold cursorInputSort.
  destruct (pagination ≫= cursor) as [c|];
    [destruct (JSON_parse E (messageCid c)) |];
    auto using readsOnly_ret, readsOnly_throw.
Qed.

Lemma readsOnly_lastEvaluatedKeyCheck data :
  readsOnly E (lastEvaluatedKeyCheck data).
Proof.
  unfold lastEvaluatedKeyCheck.
  destruct (ScannedCount data) as [[|n]|]; try apply readsOnly_ret.
  destruct (Items data) as [items|]; try apply readsOnly_ret.
  destruct (LastEvaluatedKey data) as [key|]; try apply readsOnly_ret.
  apply readsOnly_bind.
  - apply readsOnly_foldlM. intros b [k av].
    destruct (items !! n); [apply readsOnly_ret | apply readsOnly_throw].
  - intros []; apply readsOnly_ret.
Qed.

Lemma readsOnly_filteredItems filters items : readsOnly E (filteredItems filters items).
Proof.
  intros w. rewrite filteredItems_run. simpl.
  split; [done |]. exists []. by rewrite app_nil_r.
Qed.

Lemma readsOnly_processPaginationResults results sortProperty key limit options :
  readsOnly E (processPaginationResults results sortProperty key limit options).
Proof.
  unfold processPaginationResults.
  apply readsOnly_bind.
  - apply readsOnly_traverse. intros r. unfold parseArguments.
    destruct (r !! "encodedMessageBytes"); auto using readsOnly_ret, readsOnly_throw.
  - intros args. apply readsOnly_bind.
    + apply readsOnly_traverse. intros [b d]. apply readsOnly_parseEncodedMessage.
    + intros msgs. apply readsOnly_ret.
Qed.
End Reads.

(** X9.  [get] and [query] only read: whatever the backend answers and
    however the call ends, they send no [PutItem] and no [DeleteItem]
    command, and no message object of the caller is changed. *)
Theorem reads_never_write (E : Env) :
  (forall tenant cid options, readsOnly E (get tenant cid options))
  /\ (forall tenant filters messageSort pagination options,
        readsOnly E (query tenant filters messageSort pagination options)).
Proof.
  split.
  - intros. unfold get. apply readsOnly_try_catch; [| intros; apply readsOnly_ret].
    apply readsOnly_bind; [apply readsOnly_throwIfAborted |]. intros _.
    apply readsOnly_bind; [by apply readsOnly_send |]. intros [item|];
      [| apply readsOnly_ret].
    destruct (item !! "tenant"), (item !! "messageCid"),
      (item !! "encodedMessageBytes"); try apply readsOnly_throw.
    apply readsOnly_bind; [apply readsOnly_parseEncodedMessage |].
    intros m. apply readsOnly_ret.
  - intros. unfold query.
    apply readsOnly_bind; [apply readsOnly_throwIfAborted |]. intros _.
    apply readsOnly_try_catch; [| intros; apply readsOnly_throw].
    apply readsOnly_bind; [apply readsOnly_cursorInputSort |]. intros params.
    apply readsOnly_bind; [by apply readsOnly_send |]. intros data.
    apply readsOnly_bind; [by apply readsOnly_send |]. intros data2.
    apply readsOnly_bind; [apply readsOnly_lastEvaluatedKeyCheck |]. intros data'.
    destruct (Items data'); [| apply readsOnly_ret].
    apply readsOnly_bind; [apply readsOnly_filteredItems |]. intros kept.
    apply readsOnly_processPaginationResults.
Qed.

(** ** What a query sends, and in which order it answers *)

Lemma try_catch_rethrow {E : Env} {A} (m : M E A) (w : World E) :
  try_catch m (fun err => throw err) w = m w.
Proof. unfold try_catch, throw. by destruct (m w) as [[a|e] w']. Qed.

(** The first command of a call that gets past the cursor is the query
    with the parameters of [cursorInputSort]. *)
Lemma query_sends_first (E : Env) tenant filters messageSort pagination options
    (w : World E) params :
  isAborted options = false ->
  cursorInputSort tenant pagination
    (property (extractSortProperties messageSort))
    (direction (extractSortProperties messageSort)) w = (Ok params, w) ->
  exists rest,
    sent (query tenant filters messageSort pagination options w).2
    = sent w ++ sentCommand (QueryCommand params) :: rest.
Proof.
  intros Hab Hparams. unfold query, bind at 1.
  rewrite (throwIfAborted_ok _ _ Hab), try_catch_rethrow.
  unfold bind at 1. cbv zeta. rewrite Hparams.
  match goal with |- context [bind (send ?c) ?k w] =>
    assert (Hk : forall data, readsOnly E (k data))
  end.
  { intros data.
    apply readsOnly_bind; [by apply readsOnly_send |]. intros data2.
    apply readsOnly_bind; [apply readsOnly_lastEvaluatedKeyCheck |]. intros data'.
    destruct (Items data'); [| apply readsOnly_ret].
    apply readsOnly_bind; [apply readsOnly_filteredItems |]. intros kept.
    apply readsOnly_processPaginationResults. }
  unfold bind at 1, send at 1.
  destruct (client_send E _ (QueryCommand params) (backend w)) as [[data|e] b1]; simpl.
  - match goal with |- context [sent (_ ?w1).2] =>
      destruct (Hk data w1) as (_ & rest & -> & _)
    end.
    simpl. exists rest. by rewrite <- app_assoc.
  - by exists [].
Qed.




(** C4, as the code has it.  When [pagination.limit] is absent or zero,
    the physical query carries no limit and starts where the cursor of the
    call says, and [query] answers from the one response the service gives
    to it: it returns the matching items of that response, decoded, and a
    cursor exactly when the response ended before the end of the index.
    What lies ahead are rows of the tenant that are in the index, that is,
    carry the sort attribute as a string.  When everything ahead fits into
    one response, the matching items of all that lies ahead are returned,
    and no cursor. *)
Theorem unbounded_query_returns_one_response (E : Env) tenant filters messageSort
    pagination options (w : World (withDynamoDB E)) params ahead msgs :
  let sp := extractSortProperties messageSort in
  let view := tenantView (DynamoDB.rows (backend w)) tenant messageSort in
  let response := DynamoDB.responseOf (backend w) None ahead in
  let call := query tenant filters messageSort pagination options w in
  pagination ≫= limit = None \/ pagination ≫= limit = Some 0 ->
  isAborted options = false ->
  cursorInputSort tenant pagination (property sp) (direction sp) w = (Ok params, w) ->
  DynamoDB.startOf params view = Ok ahead ->
  ¬ filterFails filters response ->
  Forall2 (decodes E) (matching filters response) msgs ->
  Limit params = None
  /\ ExclusiveStartKey params
     = (pagination ≫= cursor) ≫= (fun c => JSON_parse E (messageCid c))
  /\ (forall x, x ∈ ahead ->
        x ∈ DynamoDB.rows (backend w) /\ x !! "tenant" = Some (AttrS tenant)
        /\ is_Some (x !! property sp ≫= attrS))
  /\ (exists rest, sent call.2 = sent w ++ sentCommand (QueryCommand params) :: rest)
  /\ call.1
     = Ok {| messages := msgs;
             resultCursor :=
               if decide (length response < length ahead)
               then cursorOf E ∘ DynamoDB.keyOf (sortIndex messageSort) <$> last response
               else None |}
  /\ (length ahead ≤ DynamoDB.capacity (backend w) ahead ->
      response = ahead /\ call.1 = Ok {| messages := msgs; resultCursor := None |}).
Proof.
  intros sp view response call Hlimit Hab Hparams Hstart Hplain Hdec.
  assert (Hphys : physicalLimit pagination = None).
  { unfold physicalLimit. by destruct Hlimit as [-> | ->]. }
  assert (Hcall : call.1
    = Ok {| messages := msgs;
            resultCursor :=
              if decide (length response < length ahead)
              then cursorOf E ∘ DynamoDB.keyOf (sortIndex messageSort) <$> last response
              else None |}).
  { subst call.
    rewrite (reference_query E tenant filters messageSort pagination options w
               params ahead msgs Hab Hparams Hstart);
      rewrite Hphys; [| done | done].
    fold response. cbn [fst]. do 2 f_equal.
    destruct (decide (length response < length ahead)) as [Hcut|Hall].
    - rewrite decide_True by auto. by destruct (last response).
    - rewrite decide_False; [done |]. by intros [[=]|?]. }
  split; [| split; [| split; [| split; [| split]]]].
  - destruct (cursorInputSort_shape _ _ _ _ _ _ _ Hparams) as [_ [key ->]].
    simpl. exact Hphys.
  - clear Hcall. subst sp. rewrite cursorInputSort_sorted in Hparams.
    destruct (pagination ≫= cursor) as [c|]; simpl in *;
      [destruct (JSON_parse E (messageCid c)) eqn:Hparse |];
      by simplify_eq.
  - intros x Hx. apply (elem_of_tenantView _ tenant messageSort).
    by eapply startOf_elem_of.
  - by apply query_sends_first.
  - exact Hcall.
  - intros Hfits. assert (Hall : response = ahead) by by apply responseOf_all.
    split; [done |]. rewrite Hcall, Hall.
    rewrite decide_False by lia. done.
Qed.

Lemma unbounded_query_returns_one_response_witness :
  let w := Sample.crowded 2 [Sample.r3; Sample.r1; Sample.r2] in
  (query "T" Sample.tasks Sample.byTimestamp
     (Some {| cursor := None; limit := Some 0 |}) None w).1
  = Ok {| messages := [Sample.m2];
          resultCursor := Some {| messageCid := "c2"; value := "c2" |} |}.
Proof.
  apply (unbounded_query_returns_one_response Sample.env "T" Sample.tasks
           Sample.byTimestamp (Some {| cursor := None; limit := Some 0 |}) None
           (Sample.crowded 2 [Sample.r3; Sample.r1; Sample.r2])
           (sortedParams "T" Sample.byTimestamp None)
           [Sample.r1; Sample.r2; Sample.r3]
           [Sample.m2]).
  - by right.
  - reflexivity.
  - reflexivity.
  - vm_compute. reflexivity.
  - apply (bool_decide_unpack _). vm_compute. exact I.
  - vm_compute. repeat constructor.
Defined.

(** C4, the part that fails: three records match and the service fills a
    response with two.  A call without limit returns the first two with a
    cursor; it does not fetch the third. *)
Lemma unbounded_query_stops_at_full_response :
  let rows := [Sample.r1; Sample.r2; Sample.r3] in
  let w := Sample.crowded 2 rows in
  matching Sample.anything (tenantView rows "T" Sample.byTimestamp)
  = [Sample.r1; Sample.r2; Sample.r3]
  /\ (query "T" Sample.anything Sample.byTimestamp None None w).1
     = Ok {| messages := [Sample.m1; Sample.m2];
             resultCursor := Some {| messageCid := "c2"; value := "c2" |} |}
  /\ (query "T" Sample.anything Sample.byTimestamp
        (Some {| cursor := None; limit := Some 0 |}) None w).1
     = Ok {| messages := [Sample.m1; Sample.m2];
             resultCursor := Some {| messageCid := "c2"; value := "c2" |} |}.
Proof. repeat split; vm_compute; reflexivity. Qed.

(** When the table is small enough for one response, a call without limit
    returns every match and no cursor. *)
Example unbounded_query_of_a_small_table :
  (query "T" Sample.tasks Sample.byTimestamp None None
     (Sample.world [Sample.r3; Sample.r1; Sample.r2] true ∅)).1
  = Ok {| messages := [Sample.m2; Sample.m3]; resultCursor := None |}.
Proof. vm_compute. reflexivity. Qed.

(** ** Sort selection *)



(** ** Cursors that name no stored row *)

(** A cursor whose text parses to [null] gives the query no start
    position: the first page comes back. *)
Example query_with_null_cursor :
  (query "T" Sample.anything Sample.byTimestamp
     (Some {| cursor := Some {| messageCid := "null"; value := "" |}; limit := Some 2 |})
     None (Sample.world [Sample.r1; Sample.r2; Sample.r3] true ∅)).1
  = Ok {| messages := [Sample.m1; Sample.m2];
          resultCursor := Some {| messageCid := "c2"; value := "c2" |} |}.
Proof. vm_compute. reflexivity. Qed.

(** A cursor that names a row deleted since resumes after the position
    the row had. *)
Example query_with_stale_cursor :
  (query "T" Sample.anything Sample.byTimestamp
     (Some {| cursor := Some {| messageCid := "c2"; value := "c2" |}; limit := Some 2 |})
     None (Sample.world [Sample.r1; Sample.r3] true ∅)).1
  = Ok {| messages := [Sample.m3]; resultCursor := None |}.
Proof. vm_compute. reflexivity. Qed.
(** ** Writing, then reading *)

Lemma afterGetEncodedData_inlineDataOf (m : GenericMessage) :
  afterGetEncodedData (afterGetEncodedData m) = afterGetEncodedData m
  /\ inlineDataOf (afterGetEncodedData m) = None
  /\ m = match inlineDataOf m with
         | Some data =>
           {| descriptor := descriptor (afterGetEncodedData m);
              encodedData := Some data;
              otherProps := otherProps (afterGetEncodedData m) |}
         | None => afterGetEncodedData m
         end.
Proof.
  unfold afterGetEncodedData, inlineDataOf, isRecordsWrite, withoutEncodedData.
  destruct m as [d [data|] o]; simpl; [| done].
  destruct (String.eqb (interface d) "Records" && String.eqb (method d) "Write") eqn:Hrw;
    destruct (String.eqb data "") eqn:Hdata; simpl; rewrite ?Hrw, ?Hdata; done.
Qed.

Lemma getEncodedData_outcome (E : Env) (message : Ref) (m : GenericMessage)
    (w : World E) :
  heap w !! message = Some m ->
  getEncodedData message w
  = (Ok (message, inlineDataOf m),
     {| backend := backend w; sent := sent w;
        heap := <[message := afterGetEncodedData m]> (heap w) |}).
Proof.
  intros Hm. unfold getEncodedData, bind at 1, deref. rewrite Hm.
  unfold afterGetEncodedData, inlineDataOf, isRecordsWrite, withoutEncodedData.
  destruct w as [b s h]. simpl in *.
  destruct (encodedData m) as [data|];
    destruct (String.eqb (interface (descriptor m)) "Records"
              && String.eqb (method (descriptor m)) "Write");
    simpl; try (destruct (String.eqb data "")); simpl;
    unfold bind, ret, assign; simpl; by rewrite ?(insert_id h message m).
Qed.

(** The one command of a [put] that gets past the signal. *)
Lemma put_sends (E : Env) tenant message m indexes options (w : World E) :
  let command :=
    PutItemCommand {| put_TableName := tableName;
                      put_Item := putItemOf E tenant m indexes |} in
  isAborted options = false ->
  heap w !! message = Some m ->
  put tenant message indexes options w
  = (Ok tt,
     {| backend := (client_send E unit command (backend w)).2;
        sent := sent w ++ [sentCommand command];
        heap := <[message := afterGetEncodedData m]> (heap w) |}).
Proof.
  intros command Hab Hm. unfold put, bind at 1. rewrite (throwIfAborted_ok _ _ Hab).
  unfold bind at 1. rewrite (getEncodedData_outcome E message m w Hm). simpl.
  unfold bind at 1, deref. simpl. rewrite lookup_insert_eq.
  subst command. unfold putItemOf.
  destruct (extractTagsAndSanitizeIndexes E indexes) as [putIndexes tags]. simpl.
  unfold try_catch, send. simpl.
  match goal with |- context [client_send E unit ?c ?b] =>
    destruct (client_send E unit c b) as [[[]|e] b'] end;
    reflexivity.
Qed.

(** X10.  Putting the same message object twice: the first call took the
    inline data out of the object, so the second call writes the same item
    without it, under the same [messageCid]; on a table that replaces items
    the stored record loses its inline data. *)
Theorem second_put_drops_inline_data (E : Env) tenant message m data indexes options
    (w : World E) :
  let item := putItemOf E tenant (afterGetEncodedData m) indexes in
  isAborted options = false ->
  heap w !! message = Some m ->
  inlineDataOf m = Some data ->
  exists w1 w2,
    put tenant message indexes options w = (Ok tt, w1)
    /\ put tenant message indexes options w1 = (Ok tt, w2)
    /\ sent w2
       = sent w
           ++ [sentCommand (PutItemCommand
                 {| put_TableName := tableName;
                    put_Item := <[ "encodedData" := AttrS data ]> item |});
               sentCommand (PutItemCommand
                 {| put_TableName := tableName; put_Item := item |})].
Proof.
  intros item Hab Hm Hdata.
  destruct (afterGetEncodedData_inlineDataOf m) as (Hidem & Hnone & _).
  eexists _, _. split; [apply (put_sends E); eassumption |].
  split.
  - apply (put_sends E); [done |]. simpl. apply lookup_insert_eq.
  - simpl. rewrite <- app_assoc. simpl. subst item.
    unfold putItemOf at 1. rewrite Hdata.
    unfold putItemOf. by rewrite Hidem, Hnone.
Qed.

Lemma second_put_drops_inline_data_witness :
  let m := Sample.recordsWrite "r1" (Some "ZGF0YQ") in
  let w := Sample.world [] true {[ 1 := m ]} in
  (get "T" "c1" None (put "T" 1 ∅ None w).2).1 = Ok (Some m)
  /\ (get "T" "c1" None (put "T" 1 ∅ None (put "T" 1 ∅ None w).2).2).1
     = Ok (Some Sample.m1)
  /\ exists w1 w2,
       put "T" 1 ∅ None w = (Ok tt, w1)
       /\ put "T" 1 ∅ None w1 = (Ok tt, w2)
       /\ sent w2
          = sent w
              ++ [sentCommand (PutItemCommand
                    {| put_TableName := tableName;
                       put_Item :=
                         <[ "encodedData" := AttrS "ZGF0YQ" ]>
                           (putItemOf Sample.env "T" Sample.m1 ∅) |});
                  sentCommand (PutItemCommand
                    {| put_TableName := tableName;
                       put_Item := putItemOf Sample.env "T" Sample.m1 ∅ |})].
Proof.
  split; [vm_compute; reflexivity |]. split; [vm_compute; reflexivity |].
  apply (second_put_drops_inline_data Sample.env "T" 1
           (Sample.recordsWrite "r1" (Some "ZGF0YQ")) "ZGF0YQ" ∅ None);
    reflexivity.
Defined.

Lemma find_after_put (hasKey : Item -> Item -> bool) (key item : Item) (rows : list Item) :
  hasKey key item = true ->
  (forall r, hasKey item r = hasKey key r) ->
  List.find (hasKey key)
    (List.filter (fun i => negb (hasKey item i)) rows ++ [item]) = Some item.
Proof.
  intros Hitem Hsame. induction rows as [|r rows IH]; simpl.
  - by rewrite Hitem.
  - rewrite Hsame. destruct (hasKey key r) eqn:Hr; simpl; [done |]. by rewrite Hr.
Qed.

Lemma find_after_delete (hasKey : Item -> Item -> bool) (key : Item) (rows : list Item) :
  List.find (hasKey key) (List.filter (fun i => negb (hasKey key i)) rows) = None.
Proof.
  induction rows as [|r rows IH]; simpl; [done |].
  destruct (hasKey key r) eqn:Hr; simpl; [done |]. by rewrite Hr.
Qed.

Lemma putItemOf_lookup (E : Env) tenant (m : GenericMessage) indexes :
  Forall (fun k => (extractTagsAndSanitizeIndexes E indexes).1 !! k = None
                   /\ (extractTagsAndSanitizeIndexes E indexes).2 !! k = None)
    reservedAttributes ->
  let item := putItemOf E tenant m indexes in
  let encodedMessageBlock := block_encode E (afterGetEncodedData m) in
  item !! "tenant" = Some (AttrS tenant)
  /\ item !! "messageCid" = Some (AttrS (cid encodedMessageBlock))
  /\ item !! "encodedMessageBytes" = Some (AttrB (blockBytes encodedMessageBlock))
  /\ item !! "encodedData" = AttrS <$> inlineDataOf m.
Proof.
  unfold reservedAttributes. rewrite !Forall_cons.
  intros ([Hi1 Ht1] & [Hi2 Ht2] & [Hi3 Ht3] & [Hi4 Ht4] & _). simpl.
  unfold putItemOf.
  assert (Hbase : forall k (base : Item),
    (extractTagsAndSanitizeIndexes E indexes).1 !! k = None ->
    (extractTagsAndSanitizeIndexes E indexes).2 !! k = None ->
    ((extractTagsAndSanitizeIndexes E indexes).1
       ∪ ((extractTagsAndSanitizeIndexes E indexes).2 ∪ base)) !! k = base !! k).
  { intros k base H1 H2. by rewrite !lookup_union_r. }
  destruct (inlineDataOf m) as [data|]; simpl;
    rewrite ?lookup_insert_eq, ?(lookup_insert_ne _ "encodedData") by done;
    rewrite !Hbase by done;
    repeat split;
    rewrite ?lookup_insert_eq, ?lookup_insert_ne, ?lookup_singleton_eq,
      ?lookup_singleton_ne by done;
    done.
Qed.

Lemma project_lookup (attributes : list string) (item : Item) k :
  k ∈ attributes -> DynamoDB.project attributes item !! k = item !! k.
Proof.
  intros Hk. unfold DynamoDB.project. rewrite map_lookup_filter.
  destruct (item !! k); simpl; [| done]. by rewrite option_guard_True.
Qed.

(** X11.  Writing, then reading: over the reference service, a message
    that was put is returned by [get] under the identifier of its encoding,
    equal to what it was before [put] took its inline data away.  This
    needs a codec that decodes what it encoded, and index and tag
    attributes that leave alone the four attribute names the store uses:
    they are spread over [tenant], [messageCid] and [encodedMessageBytes]
    and would replace them. *)
Theorem put_then_get (E : Env) tenant message m indexes options
    (w : World (withDynamoDB E)) :
  let stripped := afterGetEncodedData m in
  isAborted options = false ->
  heap w !! message = Some m ->
  DynamoDB.available (backend w) = true ->
  block_decode E (blockBytes (block_encode E stripped)) = Some stripped ->
  Forall (fun k => (extractTagsAndSanitizeIndexes E indexes).1 !! k = None
                   /\ (extractTagsAndSanitizeIndexes E indexes).2 !! k = None)
    reservedAttributes ->
  exists w1 w2,
    put tenant message indexes options w = (Ok tt, w1)
    /\ get tenant (cid (block_encode E stripped)) options w1 = (Ok (Some m), w2).
Proof.
  intros stripped Hab Hm Hup Hcodec Hreserved.
  destruct (putItemOf_lookup (withDynamoDB E) tenant m indexes Hreserved)
    as (Htenant & Hcid & Hbytes & Hdata).
  change (block_encode (withDynamoDB E)) with (block_encode E) in *.
  fold stripped in Hcid, Hbytes.
  eexists _, _. split; [apply (put_sends (withDynamoDB E)); eassumption |].
  unfold get, try_catch, bind at 1. rewrite (throwIfAborted_ok _ _ Hab).
  unfold bind at 1, send. simpl. rewrite Hup. simpl.
  set (item := putItemOf (withDynamoDB E) tenant m indexes) in *.
  rewrite (find_after_put DynamoDB.hasKey).
  - simpl.
    rewrite !project_lookup by (repeat constructor).
    rewrite Htenant, Hcid, Hbytes, Hdata.
    unfold bind, parseEncodedMessage, bind. rewrite (throwIfAborted_ok _ _ Hab).
    simpl. change (block_decode (withDynamoDB E)) with (block_decode E).
    rewrite Hcodec.
    destruct (afterGetEncodedData_inlineDataOf m) as (_ & _ & Hm').
    fold stripped in Hm'. destruct (inlineDataOf m); simpl; unfold ret;
      by rewrite <- Hm'.
  - unfold DynamoDB.hasKey, DynamoDB.primaryKey, marshallKey.
    apply bool_decide_eq_true. rewrite Htenant, Hcid.
    by rewrite lookup_insert_eq, lookup_insert_ne, lookup_singleton_eq.
  - intros r. unfold DynamoDB.hasKey, DynamoDB.primaryKey, marshallKey.
    rewrite Htenant, Hcid.
    by rewrite lookup_insert_eq, lookup_insert_ne, lookup_singleton_eq.
Qed.

Lemma put_then_get_witness :
  let m := Sample.recordsWrite "r1" (Some "ZGF0YQ") in
  let w := Sample.world [Sample.r2] true {[ 1 := m ]} in
  exists w1 w2,
    put "T" 1 ∅ None w = (Ok tt, w1)
    /\ get "T" "c1" None w1 = (Ok (Some m), w2).
Proof.
  apply (put_then_get Sample.env "T" 1 (Sample.recordsWrite "r1" (Some "ZGF0YQ"))
           ∅ None (Sample.world [Sample.r2] true {[ 1 := Sample.recordsWrite "r1" (Some "ZGF0YQ") ]}));
    try reflexivity.
  repeat constructor.
Defined.

(** X12.  Deleting, then reading: over the reference service, after
    [delete] of a key [get] of that key returns [undefined], whether or not
    the key was there. *)
Theorem delete_then_get (E : Env) tenant cid options (w : World (withDynamoDB E)) :
  isAborted options = false ->
  DynamoDB.available (backend w) = true ->
  exists w1 w2,
    delete tenant cid options w = (Ok tt, w1)
    /\ get tenant cid options w1 = (Ok None, w2).
Proof.
  intros Hab Hup. eexists _, _. split.
  - unfold delete, bind. rewrite (throwIfAborted_ok _ _ Hab).
    unfold send. simpl. rewrite Hup. reflexivity.
  - unfold get, try_catch, bind at 1. rewrite (throwIfAborted_ok _ _ Hab).
    unfold bind at 1, send. simpl.
    by rewrite (find_after_delete DynamoDB.hasKey).
Qed.

Lemma delete_then_get_witness :
  let w := Sample.world [Sample.r1; Sample.r2] true ∅ in
  (get "T" "c1" None w).1 = Ok (Some Sample.m1)
  /\ exists w1 w2,
       delete "T" "c1" None w = (Ok tt, w1)
       /\ get "T" "c1" None w1 = (Ok None, w2).
Proof.
  split; [vm_compute; reflexivity |].
  apply (delete_then_get Sample.env "T" "c1" None
           (Sample.world [Sample.r1; Sample.r2] true ∅));
    reflexivity.
Defined.

(** ** Clearing *)

Lemma keyed_hasKey (r : Item) tenant cid :
  r !! "tenant" ≫= attrS = Some tenant ->
  r !! "messageCid" ≫= attrS = Some cid ->
  DynamoDB.hasKey (marshallKey tenant cid) r = true.
Proof.
  intros Ht Hc. unfold DynamoDB.hasKey, DynamoDB.primaryKey, marshallKey.
  apply bool_decide_eq_true.
  rewrite lookup_insert_eq, lookup_insert_ne, lookup_singleton_eq by done.
  destruct (r !! "tenant") as [[]|], (r !! "messageCid") as [[]|];
    simpl in *; congruence.
Qed.

(** Deleting the items of a list one by one from the reference service:
    every row that is left was there before and is none of the items. *)
Lemma traverse_clearItem_reference (E : Env) (items : list Item)
    (w : World (withDynamoDB E)) :
  DynamoDB.available (backend w) = true ->
  Forall keyed items ->
  exists units w',
    traverse clearItem items w = (Ok units, w')
    /\ DynamoDB.available (backend w') = true
    /\ forall r, r ∈ DynamoDB.rows (backend w') ->
         r ∈ DynamoDB.rows (backend w) /\ r ∉ items.
Proof.
  intros Hup Hkeyed. revert w Hup.
  induction Hkeyed as [|item items [[tenant Ht] [cid Hc]] _ IH]; intros w Hup.
  - exists [], w. repeat split; [done | done | apply not_elem_of_nil].
  - simpl. unfold bind at 1, clearItem at 1. rewrite Ht, Hc.
    unfold send. simpl. rewrite Hup. simpl.
    match goal with |- context [bind _ _ ?w1] =>
      destruct (IH w1 eq_refl) as (units & w' & Hrun & Hup' & Hrows) end.
    unfold bind. rewrite Hrun. exists (() :: units), w'.
    split; [done |]. split; [done |].
    intros r Hr. apply Hrows in Hr as [Hr Hnot]. simpl in Hr.
    apply list_elem_of_In, filter_In in Hr as [Hin Hkey].
    split; [by apply list_elem_of_In |].
    apply not_elem_of_cons. split; [| done].
    intros ->. rewrite (keyed_hasKey item tenant cid Ht Hc) in Hkey. discriminate.
Qed.

(** X13.  Over the reference service, [clear] empties the table: it scans
    every row, of every tenant, and deletes each by its key.  The rows must
    carry [tenant] and [messageCid] as strings, as the rows written by
    [put] do. *)
Theorem clear_empties_table (E : Env) fuel (w : World (withDynamoDB E)) :
  DynamoDB.available (backend w) = true ->
  Forall keyed (DynamoDB.rows (backend w)) ->
  exists w',
    clear (S fuel) w = (Ok true, w')
    /\ DynamoDB.rows (backend w') = [].
Proof.
  intros Hup Hkeyed. unfold clear, try_catch. simpl.
  unfold bind at 1, send. simpl.
  match goal with |- context [bind _ _ ?w1] =>
    destruct (traverse_clearItem_reference E (DynamoDB.rows (backend w)) w1 Hup Hkeyed)
      as (units & w' & Hrun & _ & Hrows) end.
  unfold bind. rewrite Hrun. exists w'. split; [done |].
  destruct (DynamoDB.rows (backend w')) as [|r rows'] eqn:Hleft; [done |].
  destruct (Hrows r) as [Hin Hnot]; [by left |]. simpl in Hin. contradiction.
Qed.

Lemma clear_empties_table_witness :
  let w := Sample.world [Sample.r1; Sample.r2; Sample.r4] true ∅ in
  exists w', clear 1 w = (Ok true, w') /\ DynamoDB.rows (backend w') = [].
Proof.
  apply (clear_empties_table Sample.env 0
           (Sample.world [Sample.r1; Sample.r2; Sample.r4] true ∅)).
  - reflexivity.
  - repeat constructor; vm_compute; eauto.
Defined.

(** X14.  [clear] stops at the first deletion that the backend rejects and
    still returns normally: the error is caught and logged, the remaining
    items are neither deleted nor scanned again. *)
Theorem clear_stops_at_failed_delete (E : Env) fuel (w : World E)
    item rest key tenant cid b1 e b2 :
  let scan := ScanCommand {| scan_TableName := tableName;
                             scan_ExclusiveStartKey := None |} in
  let deletion := DeleteItemCommand {| delete_TableName := tableName;
                                       delete_Key := marshallKey tenant cid |} in
  client_send E _ scan (backend w)
  = (Ok {| scan_Items := Some (item :: rest); scan_LastEvaluatedKey := key |}, b1) ->
  item !! "tenant" ≫= attrS = Some tenant ->
  item !! "messageCid" ≫= attrS = Some cid ->
  client_send E _ deletion b1 = (Throw e, b2) ->
  clear (S fuel) w
  = (Ok true,
     {| backend := b2;
        sent := sent w ++ [sentCommand scan; sentCommand deletion];
        heap := heap w |}).
Proof.
  intros scan deletion Hscan Ht Hc Hdelete.
  unfold clear, try_catch. simpl. unfold bind at 1, send at 1.
  fold scan. rewrite Hscan. simpl.
  unfold bind at 1 2, clearItem at 1. rewrite Ht, Hc.
  unfold send. simpl. fold deletion. rewrite Hdelete. simpl.
  by rewrite <- app_assoc.
Qed.

Lemma clear_stops_at_failed_delete_witness :
  (clear 1 (Throttled.world 1 [Sample.r1; Sample.r2])).1 = Ok true
  /\ Throttled.table (backend (clear 1 (Throttled.world 1 [Sample.r1; Sample.r2])).2)
     = [Sample.r1; Sample.r2].
Proof.
  rewrite (clear_stops_at_failed_delete Throttled.env 0
             (Throttled.world 1 [Sample.r1; Sample.r2])
             Sample.r1 [Sample.r2] None "T" "c1"
             {| Throttled.budget := 0; Throttled.table := [Sample.r1; Sample.r2] |}
             (BackendError "ThrottlingException")
             {| Throttled.budget := 0; Throttled.table := [Sample.r1; Sample.r2] |});
    try (vm_compute; reflexivity).
  split; reflexivity.
Defined.

(** * Properties of provisioning *)

Lemma existsb_eqb_elem_of (name : string) (names : list string) :
  existsb (String.eqb name) names = true <-> name ∈ names.
Proof.
  rewrite existsb_exists. split.
  - intros (x & Hin & Heq). apply String.eqb_eq in Heq. subst.
    by apply list_elem_of_In.
  - intros Hin. exists name. split; [by apply list_elem_of_In | apply String.eqb_refl].
Qed.

(** X15.  Both [open]s fail exactly when the listing of tables is
    rejected, with the error of the listing: a rejected [CreateTable] is
    caught and never reaches the caller. *)
Theorem open_fails_only_with_listing (P : Provisioner) (w : Provisioning P) :
  let answer := (tables_send P _ (ListTablesCommand {| list_Limit := 1 |}) (tables w)).1 in
  (open w).1 = match answer with Ok _ => Ok tt | Throw e => Throw e end
  /\ (DataStoreNoSql.open w).1 = match answer with Ok _ => Ok tt | Throw e => Throw e end.
Proof.
  unfold open, DataStoreNoSql.open, sendTable. simpl.
  destruct (tables_send P _ (ListTablesCommand _) (tables w)) as [[response|e] t];
    simpl; [| done].
  split.
  - destruct (TableNames response) as [names|]; [| done].
    destruct (tableListed tableName names); [done |].
    by destruct (tables_send P _ (CreateTableCommand createTableInput) t).
  - destruct (match TableNames response with Some _ => _ | None => _ end); [done |].
    by destruct (tables_send P _ (CreateTableCommand DataStoreNoSql.createTableInput) t).
Qed.

Lemma reference_open_tables (name : string) (input : CreateTableInput)
    (names : list string) (w : Provisioning TableService.provisioner) :
  create_TableName input = name ->
  tables w = names ->
  let after :=
    if tableListed name (take 1 names) then w
    else (sendTable (CreateTableCommand input)
            (sendTable (ListTablesCommand {| list_Limit := 1 |}) w).2).2 in
  tables after = (if decide (name ∈ names) then names else names ++ [name]).
Proof.
  intros Hname Hnames. simpl.
  destruct (tableListed name (take 1 names)) eqn:Hlisted.
  - rewrite decide_True; [done |].
    unfold tableListed in Hlisted. apply andb_true_iff in Hlisted as [_ Hex].
    apply existsb_eqb_elem_of, elem_of_take in Hex as (i & Hi & _).
    by eapply list_elem_of_lookup_2.
  - unfold sendTable. simpl. rewrite Hname, Hnames.
    destruct (existsb (String.eqb name) names) eqn:Hex; simpl.
    + apply existsb_eqb_elem_of in Hex. by rewrite decide_True.
    + rewrite decide_False; [done |]. rewrite <- existsb_eqb_elem_of. congruence.
Qed.

(** X16.  Over the reference service, [open] returns normally and leaves
    the store's table among the tables, adding it at most once: a second
    [open] changes nothing.  Since only one name is listed, a table that
    exists but is not listed first is created again; the rejection is
    swallowed. *)
Theorem open_ensures_table (names : list string) :
  let w1 := (open (TableService.start names)).2 in
  (open (TableService.start names)).1 = Ok tt
  /\ tables w1 = (if decide (tableName ∈ names) then names else names ++ [tableName])
  /\ tableName ∈ tables w1
  /\ (open w1).1 = Ok tt
  /\ tables (open w1).2 = tables w1.
Proof.
  assert (Hopen : forall w : Provisioning TableService.provisioner,
    (open w).1 = Ok tt
    /\ tables (open w).2
       = (if decide (tableName ∈ tables w) then tables w else tables w ++ [tableName])).
  { intros w.
    pose proof (reference_open_tables tableName createTableInput (tables w) w
                  eq_refl eq_refl) as Hafter.
    simpl in Hafter. unfold open.
    unfold sendTable at 1. simpl.
    destruct (tableListed tableName (take 1 (tables w))); [done |].
    destruct (sendTable (CreateTableCommand createTableInput) _) as [r w2].
    done. }
  intros w1. destruct (Hopen (TableService.start names)) as [Hok Htables].
  destruct (Hopen w1) as [Hok1 Htables1].
  assert (Hin : tableName ∈ tables w1).
  { subst w1. rewrite Htables. simpl.
    destruct (decide (tableName ∈ names)) as [Hyes | Hno]; [exact Hyes |].
    apply elem_of_app. right. constructor. }
  repeat split; try done.
  rewrite Htables1. by rewrite decide_True.
Qed.

(** X17.  The same holds of the companion store's [open] and its table:
    it returns normally, leaves the table among the tables, and a second
    call changes nothing. *)
Theorem data_open_ensures_table (names : list string) :
  let w1 := (DataStoreNoSql.open (TableService.start names)).2 in
  (DataStoreNoSql.open (TableService.start names)).1 = Ok tt
  /\ tables w1 = (if decide (DataStoreNoSql.tableName ∈ names) then names
                  else names ++ [DataStoreNoSql.tableName])
  /\ (DataStoreNoSql.open w1).1 = Ok tt
  /\ tables (DataStoreNoSql.open w1).2 = tables w1.
Proof.
  assert (Hopen : forall w : Provisioning TableService.provisioner,
    (DataStoreNoSql.open w).1 = Ok tt
    /\ tables (DataStoreNoSql.open w).2
       = (if decide (DataStoreNoSql.tableName ∈ tables w) then tables w
          else tables w ++ [DataStoreNoSql.tableName])).
  { intros w.
    pose proof (reference_open_tables DataStoreNoSql.tableName
                  DataStoreNoSql.createTableInput (tables w) w eq_refl eq_refl) as Hafter.
    simpl in Hafter. unfold DataStoreNoSql.open.
    unfold sendTable at 1. simpl.
    destruct (tableListed DataStoreNoSql.tableName (take 1 (tables w))); [done |].
    destruct (sendTable (CreateTableCommand DataStoreNoSql.createTableInput) _) as [r w2].
    done. }
  intros w1. destruct (Hopen (TableService.start names)) as [Hok Htables].
  destruct (Hopen w1) as [Hok1 Htables1].
  repeat split; try done.
  rewrite Htables1. rewrite decide_True; [done |].
  subst w1. rewrite Htables. simpl.
  destruct (decide (DataStoreNoSql.tableName ∈ names)) as [Hyes | Hno]; [exact Hyes |].
  apply elem_of_app. right. constructor.
Qed.

(** With the companion table listed first, the message store's [open]
    sends [CreateTable] although its table exists. *)
Example open_creates_again :
  tablesSent (open (TableService.start ["dataStore"; "messageStoreMessages"])).2
  = [sentTableCommand (ListTablesCommand {| list_Limit := 1 |});
     sentTableCommand (CreateTableCommand createTableInput)]
  /\ tables (open (TableService.start ["dataStore"; "messageStoreMessages"])).2
     = ["dataStore"; "messageStoreMessages"].
Proof. split; reflexivity. Qed.

(** X18.  Every index the sort selector can name is declared by [open]:
    for every sort request, the table is created with a secondary index of
    the selected name, partitioned by [tenant] and sorted by the attribute
    of that name, which is declared as a string; and the key that [get] and
    [delete] send has exactly the key attributes of the table. *)
Theorem sort_indexes_are_declared (messageSort : option MessageSort) :
  let name := property (extractSortProperties messageSort) in
  tenantIndex name ∈ create_GlobalSecondaryIndexes createTableInput
  /\ {| definedAttributeName := name; AttributeType := "S" |}
     ∈ create_AttributeDefinitions createTableInput
  /\ forall tenant cid k,
       is_Some (marshallKey tenant cid !! k)
       <-> k ∈ AttributeName <$> create_KeySchema createTableInput.
Proof.
  simpl. split; [| split].
  - destruct messageSort as [[[?|] [?|] [?|]]|]; simpl; repeat constructor.
  - destruct messageSort as [[[?|] [?|] [?|]]|]; simpl; repeat constructor.
  - intros tenant cid k. unfold marshallKey.
    rewrite lookup_insert_is_Some, lookup_singleton_is_Some.
    rewrite !elem_of_cons, elem_of_nil. split.
    + intros [<- | [_ <-]]; [by left | right; by left].
    + intros [-> | [-> | []]]; [by left | right; by split].
Qed.

(** * Properties of the companion store *)

Lemma append_cons (c : Ascii.ascii) (r s : string) :
  String.append (String c r) s = String c (String.append r s).
Proof. reflexivity. Qed.

Lemma append_empty (s : string) : String.append "" s = s.
Proof. reflexivity. Qed.

Lemma recordIdDataCid_bar (recordId dataCid : string) :
  DataStoreNoSql.recordIdDataCid recordId dataCid
  = String.append recordId (String bar dataCid).
Proof.
  unfold DataStoreNoSql.recordIdDataCid.
  induction recordId as [|c r IH]; [reflexivity |].
  by rewrite !append_cons, IH.
Qed.

(** X19.  The sort key [recordId + "|" + dataCid] determines the record
    and the data identifiers as long as the record identifiers hold no
    ["|"]. *)
Theorem recordIdDataCid_injective (r1 d1 r2 d2 : string) :
  barFree r1 = true ->
  barFree r2 = true ->
  DataStoreNoSql.recordIdDataCid r1 d1 = DataStoreNoSql.recordIdDataCid r2 d2 ->
  r1 = r2 /\ d1 = d2.
Proof.
  rewrite !recordIdDataCid_bar. revert r2.
  induction r1 as [|c1 r1 IH]; intros [|c2 r2]; simpl;
    rewrite ?append_cons, ?append_empty.
  - intros _ _ Heq. by inversion Heq.
  - intros _ Hfree Heq. inversion Heq; subst.
    by rewrite Ascii.eqb_refl in Hfree.
  - intros Hfree _ Heq. inversion Heq; subst.
    by rewrite Ascii.eqb_refl in Hfree.
  - intros [_ Hf1]%andb_true_iff [_ Hf2]%andb_true_iff Heq.
    inversion Heq as [[Hc Htail]]. destruct (IH r2 Hf1 Hf2 Htail) as [-> ->]. done.
Qed.

Lemma recordIdDataCid_injective_witness :
  DataStoreNoSql.recordIdDataCid "rec1" "bafy" = "rec1|bafy"
  /\ ("rec1" = "rec1" /\ "bafy" = "bafy").
Proof.
  split; [reflexivity |].
  apply (recordIdDataCid_injective "rec1" "bafy" "rec1" "bafy"); reflexivity.
Defined.

(** With a ["|"] in a record identifier two different pairs share a key,
    and the second write replaces the data of the first. *)
Example recordIdDataCid_collision :
  DataStoreNoSql.recordIdDataCid "a|b" "c" = DataStoreNoSql.recordIdDataCid "a" "b|c"
  /\ (let E := DataStoreNoSql.withDataTable Sample.env in
      let w0 := DataStoreNoSql.world Sample.env [] true in
      let w1 := (DataStoreNoSql.put "T" "a|b" "c" [Byte.x01] w0).2 in
      let w2 := (DataStoreNoSql.put "T" "a" "b|c" [Byte.x02; Byte.x03] w1).2 in
      (DataStoreNoSql.get "T" "a|b" "c" w2).1
      = Ok (Some {| get_dataSize := 2; dataStream := [Byte.x02; Byte.x03] |})).
Proof. split; vm_compute; reflexivity. Qed.

Lemma dataKey_hasKey (item : Item) tenant recordId dataCid :
  item !! "tenant" = Some (AttrS tenant) ->
  item !! "recordIdDataCid"
  = Some (AttrS (DataStoreNoSql.recordIdDataCid recordId dataCid)) ->
  DataStoreNoSql.primaryKey item
  = DataStoreNoSql.primaryKey (DataStoreNoSql.dataKey tenant recordId dataCid).
Proof.
  intros Ht Hk. unfold DataStoreNoSql.primaryKey, DataStoreNoSql.dataKey.
  by rewrite Ht, Hk, lookup_insert_eq, lookup_insert_ne, lookup_singleton_eq.
Qed.

(** X20.  Writing, then reading: over the reference service, the bytes
    that were put come back from [get] under the same identifiers, with
    their length as [dataSize], the size [put] reported. *)
Theorem data_put_then_get (E : Env) tenant recordId dataCid (data : Readable)
    (w : World (DataStoreNoSql.withDataTable E)) :
  DynamoDB.available (backend w) = true ->
  exists w1 w2,
    DataStoreNoSql.put tenant recordId dataCid data w
    = (Ok {| put_dataSize := length data |}, w1)
    /\ DataStoreNoSql.get tenant recordId dataCid w1
       = (Ok (Some {| get_dataSize := length data; dataStream := data |}), w2).
Proof.
  intros Hup.
  set (item := ({[ "tenant" := AttrS tenant;
                   "recordId" := AttrS recordId;
                   "dataCid" := AttrS dataCid;
                   "recordIdDataCid" :=
                     AttrS (DataStoreNoSql.recordIdDataCid recordId dataCid);
                   "data" := AttrB data ]} : Item)).
  assert (Hitem : item !! "tenant" = Some (AttrS tenant)
                  /\ item !! "recordId" = Some (AttrS recordId)
                  /\ item !! "dataCid" = Some (AttrS dataCid)
                  /\ item !! "recordIdDataCid"
                     = Some (AttrS (DataStoreNoSql.recordIdDataCid recordId dataCid))
                  /\ item !! "data" = Some (AttrB data)).
  { subst item. repeat split;
      repeat (rewrite lookup_insert_ne by done);
      first [apply lookup_insert_eq | apply lookup_singleton_eq]. }
  destruct Hitem as (Ht & Hr & Hd & Hk & Hdata).
  pose proof (dataKey_hasKey item tenant recordId dataCid Ht Hk) as Hkey.
  eexists _, _. split.
  - unfold DataStoreNoSql.put, bind, send. simpl. rewrite Hup. reflexivity.
  - unfold DataStoreNoSql.get, bind, send. simpl. fold item.
    rewrite (find_after_put DataStoreNoSql.hasKey).
    + simpl. rewrite !project_lookup by (repeat constructor).
      rewrite Ht, Hr, Hd, Hdata. reflexivity.
    + unfold DataStoreNoSql.hasKey. by apply bool_decide_eq_true.
    + intros r. unfold DataStoreNoSql.hasKey. by rewrite Hkey.
Qed.

Lemma data_put_then_get_witness :
  exists w1 w2,
    DataStoreNoSql.put "T" "rec1" "bafy" [Byte.x01; Byte.x02]
      (DataStoreNoSql.world Sample.env [] true)
    = (Ok {| put_dataSize := 2 |}, w1)
    /\ DataStoreNoSql.get "T" "rec1" "bafy" w1
       = (Ok (Some {| get_dataSize := 2; dataStream := [Byte.x01; Byte.x02] |}), w2).
Proof.
  apply (data_put_then_get Sample.env "T" "rec1" "bafy" [Byte.x01; Byte.x02]
           (DataStoreNoSql.world Sample.env [] true)).
  reflexivity.
Defined.

(** X21.  Deleting, then reading: over the reference service, after
    [delete] of a triple [get] of that triple returns [undefined]. *)
Theorem data_delete_then_get (E : Env) tenant recordId dataCid
    (w : World (DataStoreNoSql.withDataTable E)) :
  DynamoDB.available (backend w) = true ->
  exists w1 w2,
    DataStoreNoSql.delete tenant recordId dataCid w = (Ok tt, w1)
    /\ DataStoreNoSql.get tenant recordId dataCid w1 = (Ok None, w2).
Proof.
  intros Hup. eexists _, _. split.
  - unfold DataStoreNoSql.delete, send. simpl. rewrite Hup. reflexivity.
  - unfold DataStoreNoSql.get, bind, send. simpl.
    by rewrite (find_after_delete DataStoreNoSql.hasKey).
Qed.

Lemma data_delete_then_get_witness :
  let w := (DataStoreNoSql.put "T" "rec1" "bafy" [Byte.x01]
              (DataStoreNoSql.world Sample.env [] true)).2 in
  (DataStoreNoSql.get "T" "rec1" "bafy" w).1
  = Ok (Some {| get_dataSize := 1; dataStream := [Byte.x01] |})
  /\ exists w1 w2,
       DataStoreNoSql.delete "T" "rec1" "bafy" w = (Ok tt, w1)
       /\ DataStoreNoSql.get "T" "rec1" "bafy" w1 = (Ok None, w2).
Proof.
  split; [vm_compute; reflexivity |].
  apply (data_delete_then_get Sample.env "T" "rec1" "bafy"). reflexivity.
Defined.

(** X22.  The companion store's [put] has no [try]: a write that the
    backend rejects fails the call with the backend's error. *)
Theorem data_put_surfaces_failure (E : Env) tenant recordId dataCid (data : Readable)
    (w : World E) e b :
  let command :=
    PutItemCommand
      {| put_TableName := DataStoreNoSql.tableName;
         put_Item :=
           {[ "tenant" := AttrS tenant;
              "recordId" := AttrS recordId;
              "dataCid" := AttrS dataCid;
              "recordIdDataCid" :=
                AttrS (DataStoreNoSql.recordIdDataCid recordId dataCid);
              "data" := AttrB data ]} |} in
  client_send E _ command (backend w) = (Throw e, b) ->
  DataStoreNoSql.put tenant recordId dataCid data w
  = (Throw e,
     {| backend := b; sent := sent w ++ [sentCommand command]; heap := heap w |}).
Proof.
  intros command Hsend. unfold DataStoreNoSql.put, bind, send.
  fold command. by rewrite Hsend.
Qed.

Lemma data_put_surfaces_failure_witness :
  (DataStoreNoSql.put "T" "rec1" "bafy" [Byte.x01]
     (DataStoreNoSql.world Sample.env [] false)).1
  = Throw (BackendError "ServiceUnavailable").
Proof.
  rewrite (data_put_surfaces_failure (DataStoreNoSql.withDataTable Sample.env)
             "T" "rec1" "bafy" [Byte.x01] (DataStoreNoSql.world Sample.env [] false)
             (BackendError "ServiceUnavailable")
             {| DynamoDB.rows := []; DynamoDB.available := false;
                DynamoDB.capacity := length |});
    reflexivity.
Defined.

Lemma data_keyed_hasKey (r : Item) tenant key :
  r !! "tenant" ≫= attrS = Some tenant ->
  r !! "recordIdDataCid" ≫= attrS = Some key ->
  DataStoreNoSql.hasKey
    {[ "tenant" := AttrS tenant; "recordIdDataCid" := AttrS key ]} r = true.
Proof.
  intros Ht Hk. unfold DataStoreNoSql.hasKey, DataStoreNoSql.primaryKey.
  apply bool_decide_eq_true.
  rewrite lookup_insert_eq, lookup_insert_ne, lookup_singleton_eq by done.
  destruct (r !! "tenant") as [[]|], (r !! "recordIdDataCid") as [[]|];
    simpl in *; congruence.
Qed.

Lemma traverse_data_clearItem_reference (E : Env) (items : list Item)
    (w : World (DataStoreNoSql.withDataTable E)) :
  DynamoDB.available (backend w) = true ->
  Forall (fun r => is_Some (r !! "tenant" ≫= attrS)
                   /\ is_Some (r !! "recordIdDataCid" ≫= attrS)) items ->
  exists units w',
    traverse DataStoreNoSql.clearItem items w = (Ok units, w')
    /\ DynamoDB.available (backend w') = true
    /\ forall r, r ∈ DynamoDB.rows (backend w') ->
         r ∈ DynamoDB.rows (backend w) /\ r ∉ items.
Proof.
  intros Hup Hkeyed. revert w Hup.
  induction Hkeyed as [|item items [[tenant Ht] [key Hk]] _ IH]; intros w Hup.
  - exists [], w. repeat split; [done | done | apply not_elem_of_nil].
  - simpl. unfold bind at 1, DataStoreNoSql.clearItem at 1. rewrite Ht, Hk.
    unfold send. simpl. rewrite Hup. simpl.
    match goal with |- context [bind _ _ ?w1] =>
      destruct (IH w1 eq_refl) as (units & w' & Hrun & Hup' & Hrows) end.
    unfold bind. rewrite Hrun. exists (() :: units), w'.
    split; [done |]. split; [done |].
    intros r Hr. apply Hrows in Hr as [Hr Hnot]. simpl in Hr.
    apply list_elem_of_In, filter_In in Hr as [Hin Hkey].
    split; [by apply list_elem_of_In |].
    apply not_elem_of_cons. split; [| done].
    intros ->. rewrite (data_keyed_hasKey item tenant key Ht Hk) in Hkey. discriminate.
Qed.

(** X23.  Over the reference service, the companion store's [clear]
    empties its table, for every tenant at once. *)
Theorem data_clear_empties_table (E : Env) fuel
    (w : World (DataStoreNoSql.withDataTable E)) :
  DynamoDB.available (backend w) = true ->
  Forall (fun r => is_Some (r !! "tenant" ≫= attrS)
                   /\ is_Some (r !! "recordIdDataCid" ≫= attrS))
    (DynamoDB.rows (backend w)) ->
  exists w',
    DataStoreNoSql.clear (S fuel) w = (Ok true, w')
    /\ DynamoDB.rows (backend w') = [].
Proof.
  intros Hup Hkeyed. unfold DataStoreNoSql.clear, try_catch. simpl.
  unfold bind at 1, send. simpl.
  match goal with |- context [bind _ _ ?w1] =>
    destruct (traverse_data_clearItem_reference E (DynamoDB.rows (backend w)) w1
                Hup Hkeyed)
      as (units & w' & Hrun & _ & Hrows) end.
  unfold bind. rewrite Hrun. exists w'. split; [done |].
  destruct (DynamoDB.rows (backend w')) as [|r rows'] eqn:Hleft; [done |].
  destruct (Hrows r) as [Hin Hnot]; [by left |]. simpl in Hin. contradiction.
Qed.

Lemma data_clear_empties_table_witness :
  let w := (DataStoreNoSql.put "U" "rec2" "bafz" [Byte.x02]
              (DataStoreNoSql.put "T" "rec1" "bafy" [Byte.x01]
                 (DataStoreNoSql.world Sample.env [] true)).2).2 in
  length (DynamoDB.rows (backend w)) = 2
  /\ exists w', DataStoreNoSql.clear 1 w = (Ok true, w')
              /\ DynamoDB.rows (backend w') = [].
Proof.
  split; [vm_compute; reflexivity |].
  apply (data_clear_empties_table Sample.env 0).
  - reflexivity.
  - vm_compute. repeat constructor; vm_compute; eauto.
Defined.
